(** * AIInterviewer: the staged interview controller of AI_Interviewer.py

    A shallow embedding of the class [AIInterviewer] and of the library
    objects it drives:

    - the session fields are a record, [AIInterviewer];
    - [ConversationBufferMemory] is the list of messages it holds,
      [save_context] appending a human and an ai message;
    - the language-model endpoint is an oracle, [Service]: it receives the
      requests already sent and the rendered prompt and either returns text
      or raises; every request is logged, so that "no external call" is the
      statement that the log did not grow;
    - methods are computations in a state-and-exception monad [M]: an
      exception leaves the mutations made before it in place, as in Python.

    Python [str] values are Rocq strings read as sequences of code points
    below 256.  Console output ([print]) is not modelled. *)

From Stdlib Require Import String Ascii List Bool Arith Lia FunInd.
Import ListNotations.
Open Scope string_scope.

(** ** Python string primitives *)

Module PyStr.

(** [str.isspace] on one code point below 256. *)
Definition isspace (c : ascii) : bool :=
  let n := nat_of_ascii c in
  ((9 <=? n)%nat && (n <=? 13)%nat) || ((28 <=? n)%nat && (n <=? 32)%nat)
  || (n =? 133)%nat || (n =? 160)%nat.

Definition is_empty (s : string) : bool :=
  match s with EmptyString => true | String _ _ => false end.

Fixpoint lstrip (s : string) : string :=
  match s with
  | EmptyString => EmptyString
  | String c t => if isspace c then lstrip t else s
  end.

Fixpoint rstrip (s : string) : string :=
  match s with
  | EmptyString => EmptyString
  | String c t =>
      let t' := rstrip t in
      if isspace c && is_empty t' then EmptyString else String c t'
  end.

(** [s.strip()] *)
Definition strip (s : string) : string := rstrip (lstrip s).

Fixpoint startswith (p s : string) : bool :=
  match p, s with
  | EmptyString, _ => true
  | String a p', String b s' => Ascii.eqb a b && startswith p' s'
  | String _ _, EmptyString => false
  end.

(** [needle in hay] *)
Fixpoint str_in (needle hay : string) : bool :=
  startswith needle hay
  || match hay with
     | EmptyString => false
     | String _ t => str_in needle t
     end.

(** [sep.join(parts)] *)
Fixpoint join (sep : string) (parts : list string) : string :=
  match parts with
  | [] => EmptyString
  | [p] => p
  | p :: rest => p ++ sep ++ join sep rest
  end.

(** Truth value of an attribute that holds [None] or a [str]. *)
Definition truthy (o : option string) : bool :=
  match o with
  | None => false
  | Some s => negb (is_empty s)
  end.

(** What an f-string field renders for such an attribute. *)
Definition fmt (o : option string) : string :=
  match o with
  | None => "None"
  | Some s => s
  end.

Definition nl : string := String (ascii_of_nat 10) EmptyString.
Definition dquote : string := String (ascii_of_nat 34) EmptyString.

End PyStr.
Import PyStr.

(** ** Data model *)

(** The six values [interview_stage] ranges over. *)
Inductive Stage : Type :=
| introduction
| general_questions
| technical_questions
| experience_questions
| behavioral_questions
| closing.

Definition stage_eqb (a b : Stage) : bool :=
  match a, b with
  | introduction, introduction
  | general_questions, general_questions
  | technical_questions, technical_questions
  | experience_questions, experience_questions
  | behavioral_questions, behavioral_questions
  | closing, closing => true
  | _, _ => false
  end.

(** The string the attribute holds, as rendered into prompts. *)
Definition stage_name (st : Stage) : string :=
  match st with
  | introduction => "introduction"
  | general_questions => "general_questions"
  | technical_questions => "technical_questions"
  | experience_questions => "experience_questions"
  | behavioral_questions => "behavioral_questions"
  | closing => "closing"
  end.

(** The local list [stages] of [advance_stage]. *)
Definition stages : list Stage :=
  [introduction; general_questions; technical_questions;
   experience_questions; behavioral_questions; closing].

(** [l.index(x)]; [None] stands for the [ValueError] of a missing element. *)
Fixpoint index (x : Stage) (l : list Stage) : option nat :=
  match l with
  | [] => None
  | y :: l' => if stage_eqb y x then Some 0 else option_map S (index x l')
  end.

(** Position of a stage in the fixed order. *)
Definition stage_index (st : Stage) : nat :=
  match index st stages with
  | Some i => i
  | None => List.length stages
  end.

(** Messages of the conversation buffer: [HumanMessage] and [AIMessage]. *)
Inductive MsgType : Type := human | ai.

Definition type_name (t : MsgType) : string :=
  match t with
  | human => "human"
  | ai => "ai"
  end.

Record Message : Type := mkMessage { msg_type : MsgType; content : string }.

(** The resume record is opaque to the controller: only its truth value
    and its [str] rendering are read. *)
Record ResumeEntities : Type := mkResume { re_bool : bool; re_str : string }.

Record AIInterviewer : Type := mkAIInterviewer {
  candidate_name : option string;
  job_position : option string;
  interview_stage : Stage;
  last_question : string;
  memory : list Message;
  resume_entities : option ResumeEntities
}.

Definition set_candidate_name (v : option string) (s : AIInterviewer) :=
  mkAIInterviewer v (job_position s) (interview_stage s) (last_question s)
                  (memory s) (resume_entities s).
Definition set_job_position (v : option string) (s : AIInterviewer) :=
  mkAIInterviewer (candidate_name s) v (interview_stage s) (last_question s)
                  (memory s) (resume_entities s).
Definition set_interview_stage (v : Stage) (s : AIInterviewer) :=
  mkAIInterviewer (candidate_name s) (job_position s) v (last_question s)
                  (memory s) (resume_entities s).
Definition set_last_question (v : string) (s : AIInterviewer) :=
  mkAIInterviewer (candidate_name s) (job_position s) (interview_stage s) v
                  (memory s) (resume_entities s).
Definition set_memory (v : list Message) (s : AIInterviewer) :=
  mkAIInterviewer (candidate_name s) (job_position s) (interview_stage s)
                  (last_question s) v (resume_entities s).

(** ** Prompt templates *)

(** [question_generator_template.format(...)]: the template of [__init__],
    line by line, with its five fields filled in. *)
Definition question_generator_format
  (job_position stage name chat_history resume_info : string) : string :=
  nl
  ++ "        You are an expert AI interviewer conducting a job interview for the position of "
  ++ job_position ++ "." ++ nl
  ++ "        " ++ nl
  ++ "        Current interview stage: " ++ stage ++ nl
  ++ "        Candidate name: " ++ name ++ nl
  ++ "        Previous conversation: " ++ chat_history ++ nl
  ++ "        " ++ nl
  ++ "        Resume information: " ++ resume_info ++ nl
  ++ "        " ++ nl
  ++ "        Based on the current stage and information above, generate a relevant, professional interview question." ++ nl
  ++ "        " ++ nl
  ++ "        If in introduction stage: Ask for candidate's name or job position they're applying for." ++ nl
  ++ "        If in general_questions stage: Ask about their background, motivation, and general qualifications." ++ nl
  ++ "        If in technical_questions stage: Ask specific questions relevant to the "
  ++ job_position ++ " role." ++ nl
  ++ "        If in experience_questions stage: Ask about their past experiences, referencing their resume information when possible." ++ nl
  ++ "        If in behavioral_questions stage: Ask about how they handled specific situations in the past." ++ nl
  ++ "        If in closing stage: Ask if they have questions or provide a conclusion to the interview." ++ nl
  ++ "        " ++ nl
  ++ "        Generate only ONE question that's appropriate for the current stage. Make it conversational and engaging." ++ nl
  ++ "        ".

(** [should_advance_template.format(...)] of [process_response]. *)
Definition should_advance_format (chat_history stage : string) : string :=
  nl
  ++ "            Based on the interview conversation so far:" ++ nl
  ++ "            " ++ chat_history ++ nl
  ++ "            " ++ nl
  ++ "            Current stage: " ++ stage ++ nl
  ++ "            " ++ nl
  ++ "            Should the interviewer move to the next stage of the interview? Consider:" ++ nl
  ++ "            1. Have enough questions been asked in the current stage?" ++ nl
  ++ "            2. Has the candidate provided sufficient information?" ++ nl
  ++ "            3. Is it natural to transition to the next stage now?" ++ nl
  ++ "            " ++ nl
  ++ "            Respond with only " ++ dquote ++ "YES" ++ dquote ++ " or "
  ++ dquote ++ "NO" ++ dquote ++ "." ++ nl
  ++ "            ".

(** The three scripted questions of the introduction stage. *)
Definition name_prompt : string :=
  "Hello! I'm your AI interviewer today. Could you please tell me your name?".

Definition role_prompt (name : option string) : string :=
  "Nice to meet you, " ++ fmt name ++ "! What position are you applying for?".

Definition welcome_prompt (name job : option string) : string :=
  "Thank you, " ++ fmt name ++ ". Let's begin the interview for the "
  ++ fmt job
  ++ " position. Could you tell me a bit about yourself and your professional background?".

(** The rendering of the buffer that both prompts embed. *)
Definition format_history (chat_history : list Message) : string :=
  match chat_history with
  | [] => ""
  | _ => join nl (map (fun msg => type_name (msg_type msg) ++ ": " ++ content msg)
                      chat_history)
  end.

(** ** The external service and the method monad *)

(** Exceptions a method can end with. *)
Inductive exn : Type :=
| ValueError                      (* [list.index] of a missing element *)
| IndexError                      (* subscript out of range *)
| ServiceError (detail : string). (* raised by the generation service *)

Inductive outcome (A : Type) : Type :=
| Ok (a : A)
| Raise (e : exn).
Arguments Ok {A} a.
Arguments Raise {A} e.

(** The generation service: from the requests sent so far and the rendered
    prompt to the returned text, or to the exception it raises. *)
Definition Service : Type := list string -> string -> outcome string.

(** The interviewer object together with the log of requests sent out. *)
Record World : Type := mkWorld { self : AIInterviewer; requests : list string }.

Definition M (A : Type) : Type := World -> World * outcome A.

Definition ret {A} (a : A) : M A := fun w => (w, Ok a).

Definition raise {A} (e : exn) : M A := fun w => (w, Raise e).

Definition bind {A B} (m : M A) (k : A -> M B) : M B :=
  fun w =>
    match m w with
    | (w', Ok a) => k a w'
    | (w', Raise e) => (w', Raise e)
    end.

Notation "x <- m ;; k" := (bind m (fun x => k))
  (at level 61, m at next level, right associativity).
Notation "m ;;; k" := (bind m (fun _ => k))
  (at level 61, right associativity).

Definition get_self : M AIInterviewer := fun w => (w, Ok (self w)).

Definition update (f : AIInterviewer -> AIInterviewer) : M unit :=
  fun w => (mkWorld (f (self w)) (requests w), Ok tt).

(** [memory.save_context({"input": i}, {"output": o})] *)
Definition save_context (input output : string) (s : AIInterviewer) : AIInterviewer :=
  set_memory (memory s ++ [mkMessage human input; mkMessage ai output])%list s.

(** [set_resume_entities] *)
Definition set_resume_entities (r : option ResumeEntities) (s : AIInterviewer) :=
  mkAIInterviewer (candidate_name s) (job_position s) (interview_stage s)
                  (last_question s) (memory s) r.

(** [initialize_session]: the six assignments, in the order of the source;
    the buffer is replaced by a new, empty one. *)
Definition initialize_session (s : AIInterviewer) : AIInterviewer :=
  let s := set_candidate_name None s in
  let s := set_job_position None s in
  let s := set_interview_stage introduction s in
  let s := set_last_question "" s in
  let s := set_memory [] s in
  set_resume_entities None s.

(** The session fields of a newly constructed object: [__init__] runs
    [initialize_session] and then only builds the client, the template and
    the chain, which no method reassigns. *)
Definition new_session : AIInterviewer :=
  mkAIInterviewer None None introduction "" [] None.

(** [advance_stage] *)
Definition advance_stage : M unit :=
  s <- get_self ;;
  match index (interview_stage s) stages with
  | None => raise ValueError
  | Some current_index =>
      if (current_index <? List.length stages - 1)%nat then
        match nth_error stages (current_index + 1) with
        | Some st => update (set_interview_stage st)
        | None => raise IndexError
        end
      else ret tt
  end.

Section Controller.

Variable llm : Service.

(** [LLMChain.run]: one request to the service, logged whether it
    answers or raises. *)
Definition run_chain (prompt : string) : M string :=
  fun w => (mkWorld (self w) (requests w ++ [prompt])%list,
            llm (requests w) prompt).

(** [get_next_question] *)
Definition get_next_question : M string :=
  s <- get_self ;;
  let name := if truthy (candidate_name s) then fmt (candidate_name s)
              else "Unknown" in
  let job_position_ := if truthy (job_position s) then fmt (job_position s)
                       else "the position" in
  let resume_info :=
    match resume_entities s with
    | Some r => if re_bool r then re_str r
                else "No resume information available."
    | None => "No resume information available."
    end in
  let chat_history_str := format_history (memory s) in
  if stage_eqb (interview_stage s) introduction then
    if negb (truthy (candidate_name s)) then
      update (set_last_question name_prompt) ;;;
      s <- get_self ;; ret (last_question s)
    else if negb (truthy (job_position s)) then
      update (set_last_question (role_prompt (candidate_name s))) ;;;
      s <- get_self ;; ret (last_question s)
    else
      update (set_interview_stage general_questions) ;;;
      update (set_last_question
                (welcome_prompt (candidate_name s) (job_position s))) ;;;
      s <- get_self ;; ret (last_question s)
  else
    response <- run_chain (question_generator_format
                             job_position_ (stage_name (interview_stage s))
                             name chat_history_str resume_info) ;;
    update (set_last_question response) ;;;
    ret response.

(** Lines 125-157 of [process_response]: the advance decision, then the
    next question. *)
Definition decide_and_continue : M string :=
  s <- get_self ;;
  (if negb (stage_eqb (interview_stage s) closing) then
     let chat_history_str := format_history (memory s) in
     advance_decision <- run_chain (should_advance_format
                                      chat_history_str
                                      (stage_name (interview_stage s))) ;;
     if str_in "YES" advance_decision then advance_stage else ret tt
   else ret tt) ;;;
  get_next_question.

(** [process_response] *)
Definition process_response (response : string) : M string :=
  s <- get_self ;;
  update (save_context (last_question s) response) ;;;
  s <- get_self ;;
  if stage_eqb (interview_stage s) introduction then
    if negb (truthy (candidate_name s)) then
      update (set_candidate_name (Some (strip response))) ;;;
      get_next_question
    else if negb (truthy (job_position s)) then
      update (set_job_position (Some (strip response))) ;;;
      get_next_question
    else decide_and_continue
  else decide_and_continue.

(** The operations a caller can apply to a session. *)
Inductive Op : Type :=
| NextQuestion
| ProcessResponse (response : string)
| Advance
| Reset
| SetResume (r : option ResumeEntities).

Definition is_reset (o : Op) : bool :=
  match o with Reset => true | _ => false end.

(** One operation; the value is the question returned, if the operation
    returns one. *)
Definition run_op (o : Op) : M (option string) :=
  match o with
  | NextQuestion => q <- get_next_question ;; ret (Some q)
  | ProcessResponse r => q <- process_response r ;; ret (Some q)
  | Advance => advance_stage ;;; ret None
  | Reset => update initialize_session ;;; ret None
  | SetResume r => update (set_resume_entities r) ;;; ret None
  end.

(** A caller that goes on after an exception: the world after a sequence
    of operations. *)
Fixpoint run (ops : list Op) (w : World) : World :=
  match ops with
  | [] => w
  | o :: ops' => run ops' (fst (run_op o w))
  end.

(** What one operation of a sequence did. *)
Record Step : Type := mkStep {
  step_op : Op;
  before : World;
  after : World;
  result : outcome (option string)
}.

Fixpoint steps (ops : list Op) (w : World) : list Step :=
  match ops with
  | [] => []
  | o :: ops' =>
      let r := run_op o w in
      mkStep o w (fst r) (snd r) :: steps ops' (fst r)
  end.

End Controller.

(** ** The transcript *)

(** The buffer read as (question, answer) pairs. *)
Fixpoint transcript (msgs : list Message) : list (string * string) :=
  match msgs with
  | q :: a :: rest => (content q, content a) :: transcript rest
  | _ => []
  end.

(** [record_exchange] of the specification is [save_context]; a sequence
    of calls. *)
Definition record_exchanges (calls : list (string * string)) (s : AIInterviewer)
  : AIInterviewer :=
  fold_left (fun s qa => save_context (fst qa) (snd qa) s) calls s.

(** The two requests a method can send, as functions of the session. *)
Definition question_request (s : AIInterviewer) : string :=
  question_generator_format
    (match job_position s with
     | Some j => if is_empty j then "the position" else j
     | None => "the position"
     end)
    (stage_name (interview_stage s))
    (match candidate_name s with
     | Some n => if is_empty n then "Unknown" else n
     | None => "Unknown"
     end)
    (format_history (memory s))
    (match resume_entities s with
     | Some r => if re_bool r then re_str r
                 else "No resume information available."
     | None => "No resume information available."
     end).

Definition advance_request (s : AIInterviewer) : string :=
  should_advance_format (format_history (memory s))
                        (stage_name (interview_stage s)).

(** The stage after [st] in [stages]; [closing] is last. *)
Definition next_stage (st : Stage) : Stage :=
  match st with
  | introduction => general_questions
  | general_questions => technical_questions
  | technical_questions => experience_questions
  | experience_questions => behavioral_questions
  | behavioral_questions => closing
  | closing => closing
  end.

(** [advance_stage], [n] times in a row. *)
Fixpoint advance_times (n : nat) : M unit :=
  match n with
  | 0 => ret tt
  | S n' => advance_stage ;;; advance_times n'
  end.

(** A session that has reached the last stage, and fixed services, for
    running the methods on concrete inputs. *)
Definition closing_world : World :=
  mkWorld (set_interview_stage closing new_session) [].

(** The two messages one exchange adds to the buffer. *)
Definition exchange_msgs (qa : string * string) : list Message :=
  [mkMessage human (fst qa); mkMessage ai (snd qa)].

(** A service that is down. *)
Definition silent_service : Service :=
  fun _ _ => Raise (ServiceError "unavailable").

Definition alice_engineer_world : World :=
  mkWorld (set_job_position (Some "Engineer")
             (set_candidate_name (Some "Alice") new_session)) [].

Definition general_world : World :=
  mkWorld (set_interview_stage general_questions new_session) [].

(** A service that answers every advance request with [decision] and every
    question request with a fixed question. *)
Definition decision_service (decision : string) : Service :=
  fun _ prompt =>
    if str_in "Should the interviewer move" prompt then Ok decision
    else Ok "Tell me more.".

(** One move of the stage: stay, or go to the next stage of [stages]. *)
Definition stage_step (a b : Stage) : Prop :=
  b = a \/ stage_index b = S (stage_index a).

(** Operations that return a question. *)
Definition asks (o : Op) : bool :=
  match o with
  | NextQuestion | ProcessResponse _ => true
  | _ => false
  end.

Definition lift_outcome (r : outcome string) : outcome (option string) :=
  match r with
  | Ok q => Ok (Some q)
  | Raise e => Raise e
  end.

(** The step sent at least one request and ended as its last request did:
    with the text the service returned as the question, or with the
    exception the service raised. *)
Definition answered_by (llm : Service) (st : Step) : Prop :=
  exists mid p,
    requests (after st) = (requests (before st) ++ mid ++ [p])%list
    /\ result st = lift_outcome (llm (requests (before st) ++ mid)%list p).

(** In the introduction the position is unset. *)
Definition intro_inv (s : AIInterviewer) : Prop :=
  interview_stage s = introduction -> truthy (job_position s) = false.

(** ** The command-line driver *)

(** [str.lower] on one code point below 256: the capitals of ASCII and of
    Latin-1 (the multiplication sign is not a letter). *)
Definition lower_char (c : ascii) : ascii :=
  let n := nat_of_ascii c in
  if ((65 <=? n)%nat && (n <=? 90)%nat)
     || ((192 <=? n)%nat && (n <=? 222)%nat && negb (n =? 215)%nat)
  then ascii_of_nat (n + 32)
  else c.

(** [s.lower()] *)
Fixpoint lower (s : string) : string :=
  match s with
  | EmptyString => EmptyString
  | String c t => String (lower_char c) (lower t)
  end.

(** The Python values the sample resume is made of. *)
#[warnings="-register-all"]
Inductive pyval : Type :=
| PyStr (s : string)
| PyList (items : list pyval)
| PyDict (items : list (string * pyval)).

Definition hex_digit (n : nat) : string :=
  String (ascii_of_nat (if (n <? 10)%nat then 48 + n else 87 + n)) EmptyString.

(** [str.isprintable] on one code point below 256. *)
Definition isprintable (c : ascii) : bool :=
  let n := nat_of_ascii c in
  ((32 <=? n)%nat && (n <=? 126)%nat) || ((161 <=? n)%nat && negb (n =? 173)%nat).

(** One character inside [repr] of a [str] delimited by [quote]. *)
Definition repr_char (quote c : ascii) : string :=
  let n := nat_of_ascii c in
  if Ascii.eqb c quote || (n =? 92)%nat then String (ascii_of_nat 92) (String c EmptyString)
  else if (n =? 9)%nat then String (ascii_of_nat 92) "t"
  else if (n =? 10)%nat then String (ascii_of_nat 92) "n"
  else if (n =? 13)%nat then String (ascii_of_nat 92) "r"
  else if isprintable c then String c EmptyString
  else String (ascii_of_nat 92) ("x" ++ hex_digit (n / 16) ++ hex_digit (n mod 16)).

Fixpoint repr_chars (quote : ascii) (s : string) : string :=
  match s with
  | EmptyString => EmptyString
  | String c t => repr_char quote c ++ repr_chars quote t
  end.

(** [repr] of a [str]: double quotes only when the text has a single quote
    and no double quote. *)
Definition repr_str (s : string) : string :=
  let quote := if str_in "'" s && negb (str_in dquote s)
               then ascii_of_nat 34 else ascii_of_nat 39 in
  String quote (repr_chars quote s ++ String quote EmptyString).

Fixpoint repr (v : pyval) : string :=
  match v with
  | PyStr s => repr_str s
  | PyList items => "[" ++ join ", " (map repr items) ++ "]"
  | PyDict items =>
      "{" ++ join ", " (map (fun kv : string * pyval =>
                              let (k, x) := kv in repr_str k ++ ": " ++ repr x)
                            items) ++ "}"
  end.

(** [str(v)] and [bool(v)] *)
Definition py_str (v : pyval) : string :=
  match v with
  | PyStr s => s
  | _ => repr v
  end.

Definition py_bool (v : pyval) : bool :=
  match v with
  | PyStr s => negb (is_empty s)
  | PyList items => match items with [] => false | _ => true end
  | PyDict items => match items with [] => false | _ => true end
  end.

Definition resume_of (v : pyval) : ResumeEntities :=
  mkResume (py_bool v) (py_str v).

(** [sample_resume_info] of [run_interview]. *)
Definition sample_resume_info : pyval :=
  PyDict
    [("skills", PyList [PyStr "Python"; PyStr "Data Analysis"; PyStr "Machine Learning";
                        PyStr "SQL"; PyStr "Project Management"]);
     ("experience",
      PyList
        [PyDict [("company", PyStr "TechCorp"); ("role", PyStr "Data Scientist");
                 ("duration", PyStr "2019-2022");
                 ("highlights", PyList [PyStr "Led a team of 3 analysts";
                                        PyStr "Improved model accuracy by 25%"])];
         PyDict [("company", PyStr "DataSystems"); ("role", PyStr "Analyst");
                 ("duration", PyStr "2017-2019");
                 ("highlights", PyList [PyStr "Developed ETL pipelines";
                                        PyStr "Automated reporting processes"])]]);
     ("education",
      PyList [PyDict [("degree", PyStr "M.S. Computer Science");
                      ("institution", PyStr "Tech University");
                      ("year", PyStr "2017")]]);
     ("projects", PyList [PyStr "Customer Segmentation Analysis";
                          PyStr "Predictive Maintenance System"])].

(** How [run_interview] ends: the loop is left and the summary printed, an
    exception of a method goes uncaught, or [input] finds no line left. *)
Inductive Ending : Type :=
| Finished
| Uncaught (e : exn)
| EndOfInput.

(** What a run leaves: the interviewer and the requests sent, the questions
    displayed, in order, and the ending. *)
Record Console : Type := mkConsole {
  final : World;
  shown : list string;
  ending : Ending
}.

(** The two lines after which the loop offers a new interview. *)
Definition closes_interview (question : string) : bool :=
  str_in "thank you for your time" (lower question)
  || str_in "interview is complete" (lower question).

(** [interviewer.initialize_session()] followed by
    [interviewer.set_resume_entities(sample_resume_info)]. *)
Definition restart (w : World) : World :=
  mkWorld (set_resume_entities (Some (resume_of sample_resume_info))
                               (initialize_session (self w)))
          (requests w).

(** The [while] loop of [run_interview] on the lines [stdin] still to be
    read; every turn reads at least one line or leaves the loop. *)
Function interview_loop (llm : Service) (stdin : list string) (w : World)
  (displayed : list string) {struct stdin} : Console :=
  match get_next_question llm w with
  | (w1, Raise e) => mkConsole w1 displayed (Uncaught e)
  | (w1, Ok question) =>
      match stdin with
      | [] => mkConsole w1 (displayed ++ [question]) EndOfInput
      | response :: rest =>
          if (lower response =? "/restart")%string then
            interview_loop llm rest (restart w1) (displayed ++ [question])
          else if (lower response =? "/exit")%string then
            mkConsole w1 (displayed ++ [question]) Finished
          else if closes_interview question then
            match rest with
            | [] => mkConsole w1 (displayed ++ [question]) EndOfInput
            | new_interview :: rest' =>
                if (lower new_interview =? "y")%string then
                  interview_loop llm rest' (restart w1) (displayed ++ [question])
                else mkConsole w1 (displayed ++ [question]) Finished
            end
          else
            match process_response llm response w1 with
            | (w2, Raise e) => mkConsole w2 (displayed ++ [question]) (Uncaught e)
            | (w2, Ok _) => interview_loop llm rest w2 (displayed ++ [question])
            end
      end
  end.

(** [run_interview]: a new interviewer with the sample resume, then the
    loop.  Building the client in [__init__] is taken to succeed; of the
    console only the questions displayed are kept. *)
Definition run_interview (llm : Service) (stdin : list string) : Console :=
  interview_loop llm stdin
    (mkWorld (set_resume_entities (Some (resume_of sample_resume_info)) new_session) [])
    [].

(** The transcript part of the summary: for each message the speaker label
    and the text (the pictograph in front of each line is left out). *)
Definition summary_lines (s : AIInterviewer) : list (string * string) :=
  map (fun msg =>
         match msg_type msg with
         | human => ("AI Interviewer", content msg)
         | ai => (fmt (candidate_name s), content msg)
         end)
      (memory s).

(** A text made of whitespace only (the empty text included). *)
Fixpoint all_space (s : string) : bool :=
  match s with
  | EmptyString => true
  | String c t => isspace c && all_space t
  end.

(** The two lines the loop takes as commands, in any letter case. *)
Definition is_command (line : string) : bool :=
  (lower line =? "/restart")%string || (lower line =? "/exit")%string.

(** A session in the middle of the introduction, the name given. *)
Definition alice_world : World :=
  mkWorld (set_candidate_name (Some "Alice") new_session) [].

(** A stored field holds no surrounding whitespace. *)
Definition trimmed (field : option string) : Prop :=
  match field with
  | Some text => strip text = text
  | None => True
  end.

(** A service that grants the advance and then goes down. *)
Definition yes_then_down : Service :=
  fun _ prompt =>
    if str_in "Should the interviewer move" prompt then Ok "YES"
    else Raise (ServiceError "unavailable").

(** Where a displayed question can come from: the scripted name question,
    a scripted position question, or text the service returned. *)
Definition scripted_or_generated (llm : Service) (q : string) : Prop :=
  q = name_prompt
  \/ (exists name, q = role_prompt (Some name))
  \/ (exists log p, llm log p = Ok q).

(** A request of the loop: an advance request, or a question request whose
    resume field is the rendering of the sample. *)
Definition carries_sample (p : string) : Prop :=
  (exists s, p = advance_request s)
  \/ (exists job stage name history,
        p = question_generator_format job stage name history
                                      (py_str sample_resume_info)).

(** A recorded exchange of a run: a question that was displayed, answered
    by a line that was read and is not a command. *)
Definition exchange_of (displayed lines : list string) (qa : string * string) : Prop :=
  In (fst qa) displayed /\ In (snd qa) lines /\ is_command (snd qa) = false.

(** The buffer is a sequence of whole exchanges, each one an exchange of
    the run. *)
Definition recorded (displayed lines : list string) (w : World) : Prop :=
  exists pairs,
    memory (self w) = flat_map exchange_msgs pairs
    /\ Forall (exchange_of displayed lines) pairs.

(** The session after the name question, the answer Alice and a blank
    answer to the position question: both fields assigned, the position
    with the empty string. *)
Definition blank_position_world : World :=
  run silent_service
      [NextQuestion; ProcessResponse "Alice"; ProcessResponse "   "]
      (mkWorld new_session []).

(** * Properties *)

(** ** Strings *)

Lemma startswith_iff (p s : string) :
  startswith p s = true <-> exists post, s = p ++ post.
Proof.
  revert s; induction p as [|a p IH]; intros s; simpl.
  - split; [intros _; now exists s | reflexivity].
  - destruct s as [|b s].
    + split; [discriminate | intros [post H]; discriminate].
    + rewrite andb_true_iff, Ascii.eqb_eq, IH. split.
      * intros [-> [post ->]]. now exists post.
      * intros [post H]. injection H as -> ->. split; [reflexivity | now exists post].
Qed.

(** [str_in] is the substring relation. *)
Lemma str_in_iff (needle hay : string) :
  str_in needle hay = true <-> exists pre post, hay = pre ++ needle ++ post.
Proof.
  induction hay as [|c hay IH].
  - simpl. rewrite orb_false_r, startswith_iff. split.
    + intros [post H]. now exists "", post.
    + intros [pre [post H]]. destruct pre; simpl in H.
      * now exists post.
      * discriminate.
  - cbn [str_in]. rewrite orb_true_iff, IH, startswith_iff. split.
    + intros [[post H] | [pre [post H]]].
      * now exists "", post.
      * exists (String c pre), post. simpl. now rewrite H.
    + intros [pre [post H]]. destruct pre as [|c' pre]; simpl in H.
      * left. now exists post.
      * right. injection H as _ H. now exists pre, post.
Qed.

Lemma truthy_Some (s : string) : truthy (Some s) = true <-> s <> "".
Proof.
  destruct s; simpl; split; intros H; try congruence; try discriminate.
Qed.

(** ** Stages *)

Lemma stage_eqb_eq (a b : Stage) : stage_eqb a b = true <-> a = b.
Proof. destruct a, b; simpl; split; intros H; congruence. Qed.

Lemma stage_eqb_neq (a b : Stage) : stage_eqb a b = false <-> a <> b.
Proof. destruct a, b; simpl; split; intros H; congruence. Qed.

(** Every stage is in [stages]: the lookup of [advance_stage] never raises. *)
Lemma index_stages (st : Stage) : index st stages = Some (stage_index st).
Proof. destruct st; reflexivity. Qed.

Lemma stage_index_next (st : Stage) :
  st <> closing -> stage_index (next_stage st) = S (stage_index st).
Proof. destruct st; intros H; try reflexivity; congruence. Qed.

Lemma stage_index_inj (a b : Stage) : stage_index a = stage_index b -> a = b.
Proof. destruct a, b; cbv; congruence. Qed.

(** [advance_stage] as a function of the stage. *)
Lemma advance_stage_eq (w : World) :
  advance_stage w =
    (if stage_eqb (interview_stage (self w)) closing then w
     else mkWorld (set_interview_stage (next_stage (interview_stage (self w)))
                                       (self w))
                  (requests w),
     Ok tt).
Proof.
  unfold advance_stage, bind, get_self.
  destruct (interview_stage (self w)); reflexivity.
Qed.

(** ** The methods, case by case *)

Section Equations.

Variable llm : Service.

Lemma get_next_question_name (w : World) :
  interview_stage (self w) = introduction ->
  truthy (candidate_name (self w)) = false ->
  get_next_question llm w =
    (mkWorld (set_last_question name_prompt (self w)) (requests w),
     Ok name_prompt).
Proof.
  intros Hst Hn. unfold get_next_question, bind, get_self.
  rewrite Hst, Hn. reflexivity.
Qed.

Lemma get_next_question_role (w : World) :
  interview_stage (self w) = introduction ->
  truthy (candidate_name (self w)) = true ->
  truthy (job_position (self w)) = false ->
  get_next_question llm w =
    (mkWorld (set_last_question (role_prompt (candidate_name (self w))) (self w))
             (requests w),
     Ok (role_prompt (candidate_name (self w)))).
Proof.
  intros Hst Hn Hj. unfold get_next_question, bind, get_self.
  rewrite Hst, Hn, Hj. reflexivity.
Qed.

Lemma get_next_question_welcome (w : World) :
  interview_stage (self w) = introduction ->
  truthy (candidate_name (self w)) = true ->
  truthy (job_position (self w)) = true ->
  get_next_question llm w =
    (mkWorld (set_last_question
                (welcome_prompt (candidate_name (self w)) (job_position (self w)))
                (set_interview_stage general_questions (self w)))
             (requests w),
     Ok (welcome_prompt (candidate_name (self w)) (job_position (self w)))).
Proof.
  intros Hst Hn Hj. unfold get_next_question, bind, get_self.
  rewrite Hst, Hn, Hj. reflexivity.
Qed.

(** Past the introduction the question is whatever the service answers
    to [question_request]; when the service raises, nothing is assigned. *)
Lemma get_next_question_generated (w : World) :
  interview_stage (self w) <> introduction ->
  get_next_question llm w =
    match llm (requests w) (question_request (self w)) with
    | Ok response =>
        (mkWorld (set_last_question response (self w))
                 (requests w ++ [question_request (self w)]),
         Ok response)
    | Raise e =>
        (mkWorld (self w) (requests w ++ [question_request (self w)]), Raise e)
    end.
Proof.
  intros Hst. apply stage_eqb_neq in Hst.
  unfold get_next_question, bind, get_self. rewrite Hst.
  unfold run_chain, question_request, truthy.
  destruct (candidate_name (self w)) as [n|], (job_position (self w)) as [j|];
    cbn [negb fmt];
    try destruct (is_empty n); try destruct (is_empty j); cbn [negb];
    destruct (llm _ _); reflexivity.
Qed.

(** The second half of [process_response]. *)
Lemma decide_and_continue_eq (w : World) :
  decide_and_continue llm w =
    if stage_eqb (interview_stage (self w)) closing then get_next_question llm w
    else
      match llm (requests w) (advance_request (self w)) with
      | Ok advance_decision =>
          let w1 := mkWorld (self w) (requests w ++ [advance_request (self w)]) in
          get_next_question llm
            (if str_in "YES" advance_decision then fst (advance_stage w1) else w1)
      | Raise e =>
          (mkWorld (self w) (requests w ++ [advance_request (self w)]), Raise e)
      end.
Proof.
  unfold decide_and_continue, bind, get_self.
  destruct (stage_eqb (interview_stage (self w)) closing) eqn:Hc; cbn [negb].
  - reflexivity.
  - unfold run_chain, advance_request. cbn [self requests].
    destruct (llm _ _) as [d|e]; [|reflexivity].
    cbv zeta. destruct (str_in "YES" d).
    + rewrite advance_stage_eq. reflexivity.
    + reflexivity.
Qed.

Lemma process_response_eq (response : string) (w : World) :
  process_response llm response w =
    let w1 := mkWorld (save_context (last_question (self w)) response (self w))
                      (requests w) in
    if stage_eqb (interview_stage (self w)) introduction then
      if negb (truthy (candidate_name (self w))) then
        get_next_question llm
          (mkWorld (set_candidate_name (Some (strip response)) (self w1))
                   (requests w))
      else if negb (truthy (job_position (self w))) then
        get_next_question llm
          (mkWorld (set_job_position (Some (strip response)) (self w1))
                   (requests w))
      else decide_and_continue llm w1
    else decide_and_continue llm w1.
Proof.
  unfold process_response, bind, get_self, update. cbn [self requests fst snd].
  cbn [save_context set_memory interview_stage candidate_name job_position].
  destruct (stage_eqb (interview_stage (self w)) introduction); [|reflexivity].
  destruct (truthy (candidate_name (self w))); cbn [negb]; [|reflexivity].
  destruct (truthy (job_position (self w))); reflexivity.
Qed.

End Equations.

(** ** The terminal stage *)

(** C3. At [closing], [advance_stage] called any number of times returns
    normally and leaves the whole world, hence the whole session, as it was. *)
Theorem advance_stage_closing_noop (w : World) (n : nat) :
  interview_stage (self w) = closing ->
  advance_times n w = (w, Ok tt).
Proof.
  intros Hc. induction n as [|n IH]; [reflexivity|].
  cbn [advance_times]. unfold bind. rewrite advance_stage_eq, Hc.
  cbn [stage_eqb]. exact IH.
Qed.

Lemma advance_stage_closing_noop_witness :
  interview_stage (self closing_world) = closing
  /\ advance_times 3 closing_world = (closing_world, Ok tt).
Proof.
  split; [reflexivity|].
  apply (advance_stage_closing_noop closing_world 3). reflexivity.
Defined.

(** ** Reset *)

Lemma initialize_session_new (s : AIInterviewer) : initialize_session s = new_session.
Proof. reflexivity. Qed.

(** C9. After any sequence of operations, [initialize_session] returns
    normally and leaves the session equal to a newly constructed one: name
    and position unset, stage [introduction], empty buffer, empty last
    question, no resume. *)
Theorem reset_restores_new_session (llm : Service) (ops : list Op) (w : World) :
  let r := run_op llm Reset (run llm ops w) in
  snd r = Ok None
  /\ self (fst r) = new_session
  /\ candidate_name (self (fst r)) = None
  /\ job_position (self (fst r)) = None
  /\ interview_stage (self (fst r)) = introduction
  /\ memory (self (fst r)) = []
  /\ last_question (self (fst r)) = ""
  /\ resume_entities (self (fst r)) = None.
Proof.
  cbv zeta. generalize (run llm ops w) as w'. intros w'.
  unfold run_op, bind, update, ret. cbn [fst snd self].
  rewrite initialize_session_new. repeat split.
Qed.

(** ** The transcript *)

Lemma transcript_exchanges (calls : list (string * string)) :
  transcript (flat_map exchange_msgs calls) = calls.
Proof.
  induction calls as [|[q a] calls IH]; [reflexivity|].
  cbn [flat_map exchange_msgs app transcript content fst snd]. now rewrite IH.
Qed.

Lemma record_exchanges_memory (calls : list (string * string)) (s : AIInterviewer) :
  memory (record_exchanges calls s) = (memory s ++ flat_map exchange_msgs calls)%list.
Proof.
  unfold record_exchanges. revert s.
  induction calls as [|[q a] calls IH]; intros s; cbn [fold_left flat_map].
  - now rewrite app_nil_r.
  - rewrite IH. cbn [save_context set_memory memory fst snd].
    now rewrite <- app_assoc.
Qed.

(** [process_response] records its exchange whatever happens next. *)
Lemma process_response_memory (llm : Service) (response : string) (w : World) :
  memory (self (fst (process_response llm response w))) =
    (memory (self w) ++ exchange_msgs (last_question (self w), response))%list.
Proof.
  assert (G : forall w', memory (self (fst (get_next_question llm w'))) = memory (self w')).
  { intros w'. destruct (stage_eqb (interview_stage (self w')) introduction) eqn:Hi.
    - apply stage_eqb_eq in Hi.
      destruct (truthy (candidate_name (self w'))) eqn:Hn.
      + destruct (truthy (job_position (self w'))) eqn:Hj.
        * now rewrite get_next_question_welcome.
        * now rewrite get_next_question_role.
      + now rewrite get_next_question_name.
    - apply stage_eqb_neq in Hi. rewrite get_next_question_generated by exact Hi.
      destruct (llm _ _); reflexivity. }
  assert (D : forall w', memory (self (fst (decide_and_continue llm w'))) = memory (self w')).
  { intros w'. rewrite decide_and_continue_eq.
    destruct (stage_eqb _ closing); [apply G|].
    destruct (llm _ _) as [d|e]; [|reflexivity].
    cbv zeta. rewrite G. destruct (str_in "YES" d); [|reflexivity].
    rewrite advance_stage_eq. cbn [fst]. destruct (stage_eqb _ closing); reflexivity. }
  rewrite process_response_eq. cbv zeta.
  destruct (stage_eqb _ introduction).
  - destruct (negb (truthy (candidate_name (self w)))); [now rewrite G|].
    destruct (negb (truthy (job_position (self w)))); [now rewrite G|].
    now rewrite D.
  - now rewrite D.
Qed.

Lemma process_responses_memory (llm : Service) (answers : list string) (w : World) :
  exists questions,
    List.length questions = List.length answers
    /\ memory (self (run llm (map ProcessResponse answers) w)) =
         (memory (self w) ++ flat_map exchange_msgs (combine questions answers))%list.
Proof.
  revert w. induction answers as [|a answers IH]; intros w.
  - exists []. split; [reflexivity|]. cbn. now rewrite app_nil_r.
  - cbn [map run].
    destruct (IH (fst (run_op llm (ProcessResponse a) w))) as [qs [Hlen Hmem]].
    exists (last_question (self w) :: qs). split; [cbn; now rewrite Hlen|].
    rewrite Hmem. cbn [combine flat_map].
    assert (E : memory (self (fst (run_op llm (ProcessResponse a) w))) =
                (memory (self w) ++ exchange_msgs (last_question (self w), a))%list).
    { rewrite <- process_response_memory with (llm := llm).
      unfold run_op, bind. destruct (process_response llm a w) as [w' [q|e]]; reflexivity. }
    rewrite E. now rewrite <- app_assoc.
Qed.

(** C8. [save_context] only appends: after a sequence of recorded exchanges
    the buffer is the old buffer followed by the exchanges in call order; in
    a session that starts empty the transcript is exactly the sequence of
    calls, so its length is the number of calls.  The exchanges that a
    sequence of [process_response] calls records follow the same rule: one
    pair per call, the answers in call order. *)
Theorem transcript_append_only (llm : Service)
  (calls : list (string * string)) (answers : list string)
  (s : AIInterviewer) (log : list string) :
  memory (record_exchanges calls s) = (memory s ++ flat_map exchange_msgs calls)%list
  /\ transcript (memory (record_exchanges calls (initialize_session s))) = calls
  /\ List.length (transcript (memory (record_exchanges calls (initialize_session s))))
     = List.length calls
  /\ (let s' := self (run llm (map ProcessResponse answers)
                          (mkWorld (initialize_session s) log)) in
      List.length (transcript (memory s')) = List.length answers
      /\ map snd (transcript (memory s')) = answers).
Proof.
  split; [apply record_exchanges_memory|].
  assert (T : transcript (memory (record_exchanges calls (initialize_session s))) = calls).
  { rewrite record_exchanges_memory. cbn [initialize_session memory set_memory
      set_resume_entities app]. apply transcript_exchanges. }
  split; [exact T|]. split; [now rewrite T|].
  cbv zeta.
  destruct (process_responses_memory llm answers (mkWorld (initialize_session s) log))
    as [qs [Hlen Hmem]].
  rewrite Hmem. cbn [self initialize_session memory set_memory set_resume_entities app].
  rewrite transcript_exchanges. split.
  - rewrite length_combine, Hlen. apply Nat.min_id.
  - clear Hmem. revert qs Hlen. induction answers as [|a answers IH]; intros qs Hlen.
    + destruct qs; reflexivity.
    + destruct qs as [|q qs]; [discriminate|]. cbn [combine map snd].
      f_equal. apply IH. now injection Hlen.
Qed.

(** ** The introduction stage *)

(** C4. In a newly created session (with any resume attached, any service
    and any earlier requests) the first [get_next_question] returns the
    scripted name question and sends no request; [process_response "Alice"]
    then stores the name and returns the scripted position question with the
    name filled in, again with no request sent. *)
Theorem introduction_name_then_role
  (llm : Service) (log : list string) (r : option ResumeEntities) :
  let w0 := mkWorld (set_resume_entities r new_session) log in
  let r1 := get_next_question llm w0 in
  let r2 := process_response llm "Alice" (fst r1) in
  snd r1 = Ok name_prompt
  /\ name_prompt
     = "Hello! I'm your AI interviewer today. Could you please tell me your name?"
  /\ requests (fst r1) = log
  /\ candidate_name (self (fst r2)) = Some "Alice"
  /\ snd r2 = Ok "Nice to meet you, Alice! What position are you applying for?"
  /\ requests (fst r2) = log.
Proof. repeat split. Qed.

(** C5, as the code has it.  In the introduction stage with a non-empty
    name and a non-empty position, [get_next_question] moves the stage to
    [general_questions], returns the scripted welcome with both filled in,
    and sends no request; apart from the stage and the last question the
    session is unchanged. *)
Theorem introduction_to_general (llm : Service) (w : World) (name job : string) :
  interview_stage (self w) = introduction ->
  candidate_name (self w) = Some name -> name <> "" ->
  job_position (self w) = Some job -> job <> "" ->
  let text := "Thank you, " ++ name ++ ". Let's begin the interview for the " ++ job
              ++ " position. Could you tell me a bit about yourself and your professional background?" in
  get_next_question llm w =
    (mkWorld (mkAIInterviewer (Some name) (Some job) general_questions text
                              (memory (self w)) (resume_entities (self w)))
             (requests w),
     Ok text).
Proof.
  intros Hst Hn Hne Hj Hje.
  rewrite get_next_question_welcome; try assumption.
  - unfold set_last_question, set_interview_stage.
    cbn [candidate_name job_position interview_stage last_question memory
         resume_entities].
    rewrite Hn, Hj. reflexivity.
  - rewrite Hn. now apply truthy_Some.
  - rewrite Hj. now apply truthy_Some.
Qed.

Lemma introduction_to_general_witness :
  get_next_question silent_service alice_engineer_world =
    (mkWorld (mkAIInterviewer (Some "Alice") (Some "Engineer") general_questions
                "Thank you, Alice. Let's begin the interview for the Engineer position. Could you tell me a bit about yourself and your professional background?"
                [] None)
             [],
     Ok "Thank you, Alice. Let's begin the interview for the Engineer position. Could you tell me a bit about yourself and your professional background?").
Proof.
  apply (introduction_to_general silent_service alice_engineer_world "Alice" "Engineer");
    solve [reflexivity | discriminate].
Defined.

(** C5, as stated, fails when a field is set to the empty string.  In the
    session reached by the answers Alice and a whitespace-only position, the
    stage is the introduction and both fields are assigned, yet
    [get_next_question] returns the scripted position question, not the
    welcome, and the stage stays [introduction] instead of moving to
    [general_questions]. *)
Lemma set_but_empty_position_stays_in_introduction :
  interview_stage (self blank_position_world) = introduction
  /\ candidate_name (self blank_position_world) = Some "Alice"
  /\ job_position (self blank_position_world) = Some ""
  /\ candidate_name (self blank_position_world) <> None
  /\ job_position (self blank_position_world) <> None
  /\ snd (get_next_question silent_service blank_position_world)
     = Ok "Nice to meet you, Alice! What position are you applying for?"
  /\ snd (get_next_question silent_service blank_position_world)
     <> Ok (welcome_prompt (Some "Alice") (Some ""))
  /\ interview_stage (self (fst (get_next_question silent_service blank_position_world)))
     = introduction
  /\ interview_stage (self (fst (get_next_question silent_service blank_position_world)))
     <> general_questions.
Proof. repeat split; discriminate. Qed.

(** ** Generated questions *)

(** C6. At [general_questions], when the service raises on the question
    request, [get_next_question] ends with that same exception and the
    session is exactly as before: stage, buffer and every other field.  No
    scripted question is substituted. *)
Theorem get_next_question_failure_propagates (llm : Service) (w : World) (e : exn) :
  interview_stage (self w) = general_questions ->
  llm (requests w) (question_request (self w)) = Raise e ->
  snd (get_next_question llm w) = Raise e
  /\ self (fst (get_next_question llm w)) = self w
  /\ interview_stage (self (fst (get_next_question llm w))) = interview_stage (self w)
  /\ memory (self (fst (get_next_question llm w))) = memory (self w)
  /\ requests (fst (get_next_question llm w))
     = (requests w ++ [question_request (self w)])%list.
Proof.
  intros Hst Hraise.
  rewrite get_next_question_generated by (rewrite Hst; discriminate).
  rewrite Hraise. repeat split.
Qed.

Lemma get_next_question_failure_propagates_witness :
  snd (get_next_question silent_service general_world)
    = Raise (ServiceError "unavailable")
  /\ self (fst (get_next_question silent_service general_world)) = self general_world.
Proof.
  destruct (get_next_question_failure_propagates
              silent_service general_world (ServiceError "unavailable"))
    as [H1 [H2 _]]; [reflexivity | reflexivity |].
  split; [exact H1 | exact H2].
Defined.

(** C10. Past the introduction, [get_next_question] sends exactly one
    request, the question template filled in from the session, where an
    unset (absent or empty) name is written as Unknown, an unset position as
    the position, and a missing (absent or false) resume as the fixed
    sentence; building the request raises nothing, and the only possible
    exception is the one the service raises. *)
Theorem question_request_defaults (llm : Service) (w : World) :
  interview_stage (self w) <> introduction ->
  let s := self w in
  let name := match candidate_name s with
              | Some n => if is_empty n then "Unknown" else n
              | None => "Unknown"
              end in
  let job := match job_position s with
             | Some j => if is_empty j then "the position" else j
             | None => "the position"
             end in
  let resume := match resume_entities s with
                | Some r => if re_bool r then re_str r
                            else "No resume information available."
                | None => "No resume information available."
                end in
  requests (fst (get_next_question llm w))
    = (requests w ++ [question_generator_format
                        job (stage_name (interview_stage s)) name
                        (format_history (memory s)) resume])%list
  /\ snd (get_next_question llm w)
     = llm (requests w)
           (question_generator_format job (stage_name (interview_stage s)) name
                                      (format_history (memory s)) resume)
  /\ (candidate_name s = None -> name = "Unknown")
  /\ (job_position s = None -> job = "the position")
  /\ (resume_entities s = None -> resume = "No resume information available.").
Proof.
  intros Hst. cbv zeta.
  rewrite get_next_question_generated by exact Hst.
  fold (question_request (self w)).
  split; [|split].
  - destruct (llm _ _); reflexivity.
  - destruct (llm _ _); reflexivity.
  - repeat split; intros ->; reflexivity.
Qed.

Lemma question_request_defaults_witness :
  requests (fst (get_next_question silent_service general_world))
  = [question_generator_format "the position" "general_questions" "Unknown" ""
                               "No resume information available."].
Proof.
  destruct (question_request_defaults silent_service general_world) as [H _];
    [discriminate|].
  exact H.
Defined.

(** ** Stage movement *)

Section Movement.

Variable llm : Service.

(** [get_next_question] moves the stage only out of the introduction, and
    only once name and position are both there. *)
Lemma get_next_question_stage (w : World) :
  interview_stage (self (fst (get_next_question llm w))) =
    if stage_eqb (interview_stage (self w)) introduction
       && truthy (candidate_name (self w)) && truthy (job_position (self w))
    then general_questions
    else interview_stage (self w).
Proof.
  destruct (stage_eqb (interview_stage (self w)) introduction) eqn:Hi.
  - apply stage_eqb_eq in Hi.
    destruct (truthy (candidate_name (self w))) eqn:Hn.
    + destruct (truthy (job_position (self w))) eqn:Hj.
      * now rewrite get_next_question_welcome.
      * now rewrite get_next_question_role.
    + now rewrite get_next_question_name.
  - apply stage_eqb_neq in Hi. rewrite get_next_question_generated by exact Hi.
    destruct (llm _ _); reflexivity.
Qed.

Lemma get_next_question_stage_later (w : World) :
  interview_stage (self w) <> introduction ->
  interview_stage (self (fst (get_next_question llm w))) = interview_stage (self w).
Proof.
  intros Hi. rewrite get_next_question_stage.
  apply stage_eqb_neq in Hi. now rewrite Hi.
Qed.

Lemma get_next_question_forward (w : World) :
  stage_step (interview_stage (self w))
             (interview_stage (self (fst (get_next_question llm w)))).
Proof.
  rewrite get_next_question_stage. unfold stage_step.
  destruct (stage_eqb (interview_stage (self w)) introduction) eqn:Hi;
    [|now left].
  apply stage_eqb_eq in Hi. rewrite Hi.
  destruct (truthy (candidate_name (self w))), (truthy (job_position (self w)));
    cbn [andb]; solve [now right | now left].
Qed.

Lemma advance_stage_forward (w : World) :
  stage_step (interview_stage (self w))
             (interview_stage (self (fst (advance_stage w)))).
Proof.
  rewrite advance_stage_eq. cbn [fst]. unfold stage_step.
  destruct (interview_stage (self w)) eqn:E; cbn [stage_eqb];
    try rewrite E; cbn; auto.
Qed.

(** Past the introduction and before the end, the stage after the second
    half of [process_response] is decided by the answer to the advance
    request alone. *)
Lemma decide_and_continue_stage (w : World) (d : string) :
  interview_stage (self w) <> introduction ->
  interview_stage (self w) <> closing ->
  llm (requests w) (advance_request (self w)) = Ok d ->
  interview_stage (self (fst (decide_and_continue llm w))) =
    if str_in "YES" d then next_stage (interview_stage (self w))
    else interview_stage (self w).
Proof.
  intros Hi Hc Hd. rewrite decide_and_continue_eq.
  apply stage_eqb_neq in Hc. rewrite Hc, Hd. cbv zeta.
  destruct (str_in "YES" d).
  - rewrite advance_stage_eq. cbn [fst self]. rewrite Hc.
    rewrite get_next_question_stage_later; cbn [self set_interview_stage interview_stage].
    + reflexivity.
    + destruct (interview_stage (self w)); discriminate.
  - rewrite get_next_question_stage_later; cbn [self]; [reflexivity | exact Hi].
Qed.

Lemma decide_and_continue_forward (w : World) :
  stage_step (interview_stage (self w))
             (interview_stage (self (fst (decide_and_continue llm w)))).
Proof.
  rewrite decide_and_continue_eq.
  destruct (stage_eqb (interview_stage (self w)) closing) eqn:Hc;
    [apply get_next_question_forward|].
  destruct (llm _ _) as [d|e]; [|now left].
  cbv zeta. destruct (str_in "YES" d).
  - rewrite advance_stage_eq. cbn [fst self]. rewrite Hc.
    rewrite get_next_question_stage_later;
      cbn [self set_interview_stage interview_stage].
    + right. apply stage_index_next. now apply stage_eqb_neq.
    + destruct (interview_stage (self w)); discriminate.
  - apply (get_next_question_forward
             (mkWorld (self w) (requests w ++ [advance_request (self w)]))).
Qed.

Lemma process_response_forward (response : string) (w : World) :
  stage_step (interview_stage (self w))
             (interview_stage (self (fst (process_response llm response w)))).
Proof.
  rewrite process_response_eq. cbv zeta.
  set (w1 := mkWorld (save_context _ _ _) _).
  destruct (stage_eqb _ introduction).
  - destruct (negb _);
      [exact (get_next_question_forward
                (mkWorld (set_candidate_name (Some (strip response)) (self w1))
                         (requests w)))|].
    destruct (negb _);
      [exact (get_next_question_forward
                (mkWorld (set_job_position (Some (strip response)) (self w1))
                         (requests w)))|].
    exact (decide_and_continue_forward w1).
  - exact (decide_and_continue_forward w1).
Qed.

Lemma run_op_stage (o : Op) (w : World) :
  interview_stage (self (fst (run_op llm o w))) =
    match o with
    | NextQuestion => interview_stage (self (fst (get_next_question llm w)))
    | ProcessResponse r => interview_stage (self (fst (process_response llm r w)))
    | Advance => interview_stage (self (fst (advance_stage w)))
    | Reset => introduction
    | SetResume _ => interview_stage (self w)
    end.
Proof.
  destruct o as [|r| | |r]; unfold run_op, bind; cbn [update].
  - destruct (get_next_question llm w) as [w' [q|e]]; reflexivity.
  - destruct (process_response llm r w) as [w' [q|e]]; reflexivity.
  - destruct (advance_stage w) as [w' [q|e]]; reflexivity.
  - reflexivity.
  - reflexivity.
Qed.

Lemma run_op_forward (o : Op) (w : World) :
  is_reset o = true
  \/ stage_step (interview_stage (self w))
                (interview_stage (self (fst (run_op llm o w)))).
Proof.
  rewrite run_op_stage. destruct o; cbn [is_reset].
  - right. apply get_next_question_forward.
  - right. apply process_response_forward.
  - right. apply advance_stage_forward.
  - now left.
  - right. now left.
Qed.

End Movement.

(** C1. At a stage other than [introduction] and [closing], when the advance
    request is answered with text [d], [process_response] leaves the session
    exactly one stage further if and only if [d] has YES (in capitals) as a
    substring; for every other text the stage is what it was.  This holds
    whether or not the question request that follows succeeds. *)
Theorem advance_iff_yes (llm : Service) (w : World) (answer d : string) :
  interview_stage (self w) <> introduction ->
  interview_stage (self w) <> closing ->
  llm (requests w)
      (advance_request (save_context (last_question (self w)) answer (self w)))
    = Ok d ->
  let st := interview_stage (self w) in
  let st' := interview_stage (self (fst (process_response llm answer w))) in
  (stage_index st' = S (stage_index st)
   <-> exists pre post, d = pre ++ "YES" ++ post)
  /\ ((exists pre post, d = pre ++ "YES" ++ post) -> st' = next_stage st)
  /\ (~ (exists pre post, d = pre ++ "YES" ++ post) -> st' = st).
Proof.
  intros Hi Hc Hd. cbv zeta.
  rewrite process_response_eq. cbv zeta.
  pose proof Hi as Hi'. apply stage_eqb_neq in Hi'. rewrite Hi'.
  rewrite (decide_and_continue_stage llm _ d); cbn [self requests]; try assumption.
  cbn [save_context set_memory interview_stage].
  rewrite <- (str_in_iff "YES" d).
  destruct (str_in "YES" d).
  - split; [|split].
    + split; [reflexivity | intros _; now apply stage_index_next].
    + reflexivity.
    + intros H. now contradiction H.
  - split; [|split].
    + split; [intros H; lia | discriminate].
    + discriminate.
    + reflexivity.
Qed.

Lemma advance_iff_yes_witness :
  interview_stage
    (self (fst (process_response (decision_service "YES please advance")
                                 "I like proofs." general_world)))
  = technical_questions
  /\ interview_stage
       (self (fst (process_response (decision_service "NO, not yet")
                                    "I like proofs." general_world)))
     = general_questions.
Proof.
  split.
  - destruct (advance_iff_yes (decision_service "YES please advance") general_world
                "I like proofs." "YES please advance") as [_ [H _]];
      [discriminate | discriminate | reflexivity |].
    apply H. now exists "", " please advance".
  - destruct (advance_iff_yes (decision_service "NO, not yet") general_world
                "I like proofs." "NO, not yet") as [_ [_ H]];
      [discriminate | discriminate | reflexivity |].
    apply H. rewrite <- str_in_iff. discriminate.
Defined.

(** C2. Along any sequence of operations, every operation other than a
    reset leaves the stage where it was or moves it to the next stage of the
    fixed order: it never skips a stage and never goes back.  Hence, without
    a reset, the stage at the end is not before the stage at the start. *)
Theorem stage_moves_forward (llm : Service) (ops : list Op) (w : World) :
  Forall (fun st =>
            is_reset (step_op st) = true
            \/ stage_step (interview_stage (self (before st)))
                          (interview_stage (self (after st))))
         (steps llm ops w)
  /\ (existsb is_reset ops = true
      \/ stage_index (interview_stage (self w))
         <= stage_index (interview_stage (self (run llm ops w)))).
Proof.
  revert w. induction ops as [|o ops IH]; intros w.
  - split; [constructor | right; cbn; lia].
  - destruct (IH (fst (run_op llm o w))) as [IH1 IH2]. split.
    + cbn [steps]. constructor; [|exact IH1]. cbn [step_op before after].
      apply run_op_forward.
    + cbn [existsb run]. destruct (run_op_forward llm o w) as [Hr | Hs].
      * left. now rewrite Hr.
      * destruct IH2 as [IH2 | IH2]; [left; rewrite IH2; apply orb_true_r|].
        right. destruct Hs as [Hs | Hs]; [rewrite Hs in IH2; exact IH2 | lia].
Qed.

(** ** Leaving the introduction *)

Section Introduction.

Variable llm : Service.

(** No method but [process_response] in the introduction assigns the name
    or the position. *)
Lemma get_next_question_identity (w : World) :
  candidate_name (self (fst (get_next_question llm w))) = candidate_name (self w)
  /\ job_position (self (fst (get_next_question llm w))) = job_position (self w).
Proof.
  destruct (stage_eqb (interview_stage (self w)) introduction) eqn:Hi.
  - apply stage_eqb_eq in Hi.
    destruct (truthy (candidate_name (self w))) eqn:Hn.
    + destruct (truthy (job_position (self w))) eqn:Hj.
      * now rewrite get_next_question_welcome.
      * now rewrite get_next_question_role.
    + now rewrite get_next_question_name.
  - apply stage_eqb_neq in Hi. rewrite get_next_question_generated by exact Hi.
    destruct (llm _ _); split; reflexivity.
Qed.

Lemma advance_stage_identity (w : World) :
  candidate_name (self (fst (advance_stage w))) = candidate_name (self w)
  /\ job_position (self (fst (advance_stage w))) = job_position (self w)
  /\ requests (fst (advance_stage w)) = requests w.
Proof.
  rewrite advance_stage_eq. cbn [fst].
  destruct (stage_eqb _ closing); repeat split.
Qed.

Lemma decide_and_continue_identity (w : World) :
  candidate_name (self (fst (decide_and_continue llm w))) = candidate_name (self w)
  /\ job_position (self (fst (decide_and_continue llm w))) = job_position (self w).
Proof.
  rewrite decide_and_continue_eq.
  destruct (stage_eqb _ closing); [apply get_next_question_identity|].
  destruct (llm _ _) as [d|e]; [|split; reflexivity].
  cbv zeta.
  match goal with
  | |- context [get_next_question llm ?w'] =>
      destruct (get_next_question_identity w') as [-> ->]
  end.
  destruct (str_in "YES" d); [|split; reflexivity].
  destruct (advance_stage_identity
              (mkWorld (self w) (requests w ++ [advance_request (self w)])))
    as [-> [-> _]].
  split; reflexivity.
Qed.

Lemma stage_step_later (a b : Stage) :
  stage_step a b -> a <> introduction -> b <> introduction.
Proof.
  intros [-> | H] Ha; [exact Ha|]. intros ->. cbn in H. discriminate.
Qed.

(** Past the introduction a returned question is generated: the method
    sends at least one request and ends as its last request ends. *)
Lemma get_next_question_answered (w : World) :
  interview_stage (self w) <> introduction ->
  exists p,
    requests (fst (get_next_question llm w)) = (requests w ++ [p])%list
    /\ snd (get_next_question llm w) = llm (requests w) p.
Proof.
  intros Hi. exists (question_request (self w)).
  rewrite get_next_question_generated by exact Hi.
  destruct (llm _ _); split; reflexivity.
Qed.

Lemma decide_and_continue_answered (w : World) :
  interview_stage (self w) <> introduction ->
  exists mid p,
    requests (fst (decide_and_continue llm w)) = (requests w ++ mid ++ [p])%list
    /\ snd (decide_and_continue llm w) = llm (requests w ++ mid)%list p.
Proof.
  intros Hi. rewrite decide_and_continue_eq.
  destruct (stage_eqb _ closing) eqn:Hc.
  - destruct (get_next_question_answered w Hi) as [p [H1 H2]].
    exists [], p. now rewrite app_nil_r.
  - destruct (llm (requests w) (advance_request (self w))) as [d|e] eqn:Hd.
    + cbv zeta.
      set (w1 := mkWorld (self w) (requests w ++ [advance_request (self w)])).
      set (w2 := if str_in "YES" d then fst (advance_stage w1) else w1).
      assert (Hreq : requests w2 = (requests w ++ [advance_request (self w)])%list).
      { unfold w2. destruct (str_in "YES" d); [|reflexivity].
        now destruct (advance_stage_identity w1) as [_ [_ ->]]. }
      assert (Hst : interview_stage (self w2) <> introduction).
      { unfold w2. destruct (str_in "YES" d); [|exact Hi].
        apply (stage_step_later (interview_stage (self w1)));
          [apply advance_stage_forward | exact Hi]. }
      destruct (get_next_question_answered w2 Hst) as [p [H1 H2]].
      exists [advance_request (self w)], p.
      rewrite H1, H2, Hreq. now rewrite <- app_assoc.
    + exists [], (advance_request (self w)). cbn [fst snd requests].
      rewrite app_nil_r. now rewrite Hd.
Qed.

Lemma get_next_question_still_introduction (w : World) :
  interview_stage (self (fst (get_next_question llm w))) = introduction ->
  interview_stage (self w) = introduction
  /\ truthy (candidate_name (self w)) && truthy (job_position (self w)) = false.
Proof.
  rewrite get_next_question_stage.
  destruct (stage_eqb (interview_stage (self w)) introduction) eqn:Hi; cbn [andb].
  - apply stage_eqb_eq in Hi.
    destruct (truthy _ && truthy _); [discriminate | now split].
  - apply stage_eqb_neq in Hi. intros H. contradiction.
Qed.

Lemma get_next_question_intro_inv (w : World) :
  intro_inv (self w) -> intro_inv (self (fst (get_next_question llm w))).
Proof.
  unfold intro_inv. intros Inv H.
  destruct (get_next_question_still_introduction w H) as [Hi _].
  destruct (get_next_question_identity w) as [_ ->]. now apply Inv.
Qed.

(** Reachable sessions: in the introduction the position is still unset. *)
Lemma run_op_intro_inv (o : Op) (w : World) :
  intro_inv (self w) -> intro_inv (self (fst (run_op llm o w))).
Proof.
  intros Inv. unfold intro_inv. rewrite run_op_stage.
  destruct o as [|r| | |r].
  - intros H. rewrite <- (get_next_question_intro_inv w Inv H).
    unfold run_op, bind.
    destruct (get_next_question llm w) as [w' [q|e]]; reflexivity.
  - assert (E : job_position (self (fst (run_op llm (ProcessResponse r) w)))
                = job_position (self (fst (process_response llm r w)))).
    { unfold run_op, bind.
      destruct (process_response llm r w) as [w' [q|e]]; reflexivity. }
    rewrite E. clear E. rewrite process_response_eq. cbv zeta.
    set (w1 := mkWorld (save_context _ _ _) _).
    destruct (stage_eqb (interview_stage (self w)) introduction) eqn:Hi.
    + apply stage_eqb_eq in Hi.
      destruct (truthy (candidate_name (self w))) eqn:Hn; cbn [negb].
      * rewrite (Inv Hi). cbn [negb]. intros H.
        destruct (get_next_question_still_introduction _ H) as [_ Hb].
        destruct (get_next_question_identity
                    (mkWorld (set_job_position (Some (strip r)) (self w1))
                             (requests w))) as [_ ->].
        cbn [self set_job_position job_position candidate_name] in Hb |- *.
        cbn [w1 self save_context set_memory candidate_name] in Hb.
        rewrite Hn in Hb. exact Hb.
      * intros H.
        destruct (get_next_question_still_introduction _ H) as [_ _].
        destruct (get_next_question_identity
                    (mkWorld (set_candidate_name (Some (strip r)) (self w1))
                             (requests w))) as [_ ->].
        cbn [self set_candidate_name job_position w1 save_context set_memory].
        now apply Inv.
    + apply stage_eqb_neq in Hi. intros H. exfalso.
      revert H. apply (stage_step_later (interview_stage (self w1)));
        [apply decide_and_continue_forward | exact Hi].
  - rewrite advance_stage_eq. cbn [fst].
    destruct (interview_stage (self w)) eqn:E; cbn; congruence.
  - intros _. reflexivity.
  - intros H. unfold run_op, bind, update. cbn [fst self set_resume_entities job_position].
    now apply Inv.
Qed.

Lemma run_intro_inv (ops : list Op) (w : World) :
  intro_inv (self w) -> intro_inv (self (run llm ops w)).
Proof.
  revert w. induction ops as [|o ops IH]; intros w Inv; [exact Inv|].
  cbn [run]. apply IH. now apply run_op_intro_inv.
Qed.

(** One operation on a session that has left the introduction. *)
Lemma run_op_later (o : Op) (w : World) :
  interview_stage (self w) <> introduction ->
  is_reset o = false ->
  let st := mkStep o w (fst (run_op llm o w)) (snd (run_op llm o w)) in
  interview_stage (self (after st)) <> introduction
  /\ candidate_name (self (after st)) = candidate_name (self w)
  /\ job_position (self (after st)) = job_position (self w)
  /\ (asks o = true -> answered_by llm st).
Proof.
  intros Hi Hr. cbv zeta. cbn [after].
  split.
  { destruct (run_op_forward llm o w) as [H | H]; [congruence|].
    now apply (stage_step_later _ _ H). }
  destruct o as [|r| | |r]; try discriminate; unfold answered_by;
    cbn [asks before after result requests].
  - destruct (get_next_question_identity w) as [Hn Hj].
    destruct (get_next_question_answered w Hi) as [p [H1 H2]].
    unfold run_op, bind.
    destruct (get_next_question llm w) as [w' [q|e]]; cbn [fst snd] in *;
      (split; [exact Hn | split; [exact Hj | intros _]]);
      exists [], p; rewrite app_nil_r, <- H2; split; assumption || reflexivity.
  - assert (E : process_response llm r w =
                decide_and_continue llm
                  (mkWorld (save_context (last_question (self w)) r (self w))
                           (requests w))).
    { rewrite process_response_eq. cbv zeta.
      apply stage_eqb_neq in Hi. now rewrite Hi. }
    set (w1 := mkWorld _ _) in E.
    destruct (decide_and_continue_identity w1) as [Hn Hj].
    destruct (decide_and_continue_answered w1 Hi) as [mid [p [H1 H2]]].
    cbn [w1 requests] in H1, H2.
    unfold run_op, bind. rewrite E.
    destruct (decide_and_continue llm w1) as [w' [q|e]]; cbn [fst snd] in *;
      (split; [exact Hn | split; [exact Hj | intros _]]);
      exists mid, p; rewrite <- H2; split; assumption || reflexivity.
  - destruct (advance_stage_identity w) as [Hn [Hj _]].
    unfold run_op, bind.
    destruct (advance_stage w) as [w' [q|e]]; cbn [fst] in *;
      (split; [exact Hn | split; [exact Hj | discriminate]]).
  - repeat split. discriminate.
Qed.

End Introduction.

(** C7, as the code has it.  In a session started anew, once operations
    have left a non-empty name and a non-empty position in place, the stage
    is past the introduction, and along every later sequence of operations
    without a reset (whatever the answers, empty ones included) the stage
    never is [introduction] again, name and position keep their values, and
    every operation that returns a question sends a request and ends as its
    last request ends: no scripted question is returned. *)
Theorem introduction_left_for_good
  (llm : Service) (log : list string) (ops1 ops2 : list Op) (name job : string) :
  let w := run llm ops1 (mkWorld new_session log) in
  candidate_name (self w) = Some name -> name <> "" ->
  job_position (self w) = Some job -> job <> "" ->
  existsb is_reset ops2 = false ->
  interview_stage (self w) <> introduction
  /\ Forall (fun st =>
               interview_stage (self (after st)) <> introduction
               /\ candidate_name (self (after st)) = Some name
               /\ job_position (self (after st)) = Some job
               /\ (asks (step_op st) = true -> answered_by llm st))
            (steps llm ops2 w).
Proof.
  cbv zeta. intros Hn Hne Hj Hje Hops.
  assert (Hi : interview_stage (self (run llm ops1 (mkWorld new_session log)))
               <> introduction).
  { intros H.
    assert (Inv : intro_inv (self (mkWorld new_session log))) by (intros _; reflexivity).
    apply (run_intro_inv llm ops1) in Inv. specialize (Inv H).
    rewrite Hj in Inv. apply truthy_Some in Hje. congruence. }
  split; [exact Hi|].
  revert Hn Hj Hi. generalize (run llm ops1 (mkWorld new_session log)) as w.
  induction ops2 as [|o ops2 IH]; intros w Hn Hj Hi; [constructor|].
  cbn [existsb] in Hops. apply orb_false_iff in Hops. destruct Hops as [Ho Hops].
  destruct (run_op_later llm o w Hi Ho) as [H1 [H2 [H3 H4]]]. cbn [after] in H1, H2, H3.
  cbn [steps]. constructor.
  - cbn [after step_op]. rewrite H2, H3. repeat split; assumption.
  - apply IH; [exact Hops | now rewrite H2 | now rewrite H3 | exact H1].
Qed.

Lemma introduction_left_for_good_witness :
  Forall (fun st =>
            interview_stage (self (after st)) <> introduction
            /\ candidate_name (self (after st)) = Some "Alice"
            /\ job_position (self (after st)) = Some "Engineer"
            /\ (asks (step_op st) = true
                -> answered_by (decision_service "NO") st))
         (steps (decision_service "NO")
                [ProcessResponse ""; ProcessResponse "   "; NextQuestion; Advance]
                (run (decision_service "NO")
                     [NextQuestion; ProcessResponse "Alice"; ProcessResponse " Engineer "]
                     (mkWorld new_session []))).
Proof.
  apply (introduction_left_for_good
           (decision_service "NO") []
           [NextQuestion; ProcessResponse "Alice"; ProcessResponse " Engineer "]
           [ProcessResponse ""; ProcessResponse "   "; NextQuestion; Advance]
           "Alice" "Engineer");
    solve [reflexivity | discriminate].
Defined.

(** C7, as stated, fails when the answer that sets the position is blank.
    After the name question, the answer Alice and a whitespace-only answer,
    both fields have been assigned by [process_response] (the position holds
    the empty string), yet the session is still in the introduction and the
    scripted position question is returned again, with no request sent. *)
Lemma blank_position_is_asked_again :
  let w := run silent_service
               [NextQuestion; ProcessResponse "Alice"; ProcessResponse "   "]
               (mkWorld new_session []) in
  candidate_name (self w) = Some "Alice"
  /\ job_position (self w) = Some ""
  /\ candidate_name (self w) <> None
  /\ job_position (self w) <> None
  /\ interview_stage (self w) = introduction
  /\ snd (run_op silent_service NextQuestion w)
     = Ok (Some "Nice to meet you, Alice! What position are you applying for?")
  /\ requests (fst (run_op silent_service NextQuestion w)) = []
  /\ ~ (interview_stage (self w) <> introduction).
Proof.
  cbv zeta. repeat split; try discriminate.
  intros H. apply H. reflexivity.
Qed.


(** * Further properties of the methods *)

(** ** Text *)

Lemma string_app_assoc (a b c : string) : (a ++ b) ++ c = a ++ b ++ c.
Proof. induction a as [|x a IH]; [reflexivity|]. cbn. now rewrite IH. Qed.

Lemma join_snoc (sep : string) (parts : list string) (x : string) :
  join sep (parts ++ [x]) =
    match parts with
    | [] => x
    | _ => join sep parts ++ sep ++ x
    end.
Proof.
  induction parts as [|a parts IH]; [reflexivity|].
  destruct parts as [|b parts]; [reflexivity|].
  change (join sep ((a :: b :: parts) ++ [x]))
    with (a ++ sep ++ join sep ((b :: parts) ++ [x])).
  rewrite IH.
  change (join sep (a :: b :: parts)) with (a ++ sep ++ join sep (b :: parts)).
  now rewrite !string_app_assoc.
Qed.

(** X1. Recording an exchange extends the rendered history by two lines, the
    question tagged human and the answer tagged ai, after a line break when
    the history was not empty; what was rendered before is kept as it is. *)
Theorem format_history_save_context (s : AIInterviewer) (q a : string) :
  format_history (memory (save_context q a s)) =
    match memory s with
    | [] => "human: " ++ q ++ nl ++ "ai: " ++ a
    | _ => format_history (memory s) ++ nl ++ "human: " ++ q ++ nl ++ "ai: " ++ a
    end.
Proof.
  cbn [save_context set_memory memory].
  set (line := fun msg => type_name (msg_type msg) ++ ": " ++ content msg).
  assert (E : format_history (memory s ++ [mkMessage human q; mkMessage ai a]) =
              join nl ((map line (memory s) ++ [line (mkMessage human q)])
                       ++ [line (mkMessage ai a)])).
  { unfold format_history. fold line. rewrite map_app. cbn [map].
    destruct (memory s) as [|m ms]; [reflexivity|].
    cbn [app map]. now rewrite <- app_assoc. }
  rewrite E, join_snoc, join_snoc.
  unfold format_history. fold line.
  destruct (memory s) as [|m ms]; [reflexivity|].
  cbn [map app line msg_type content type_name].
  now rewrite !string_app_assoc.
Qed.

Lemma lstrip_all_space (s : string) : all_space s = true -> lstrip s = "".
Proof.
  induction s as [|c s IH]; [reflexivity|]. cbn.
  destruct (isspace c); [exact IH | discriminate].
Qed.

Lemma lstrip_head (s : string) :
  lstrip s = "" \/ exists c t, lstrip s = String c t /\ isspace c = false.
Proof.
  induction s as [|c s IH]; [now left|]. cbn.
  destruct (isspace c) eqn:Hc; [exact IH|]. right. now exists c, s.
Qed.

Lemma rstrip_idem (s : string) : rstrip (rstrip s) = rstrip s.
Proof.
  induction s as [|c s IH]; [reflexivity|]. cbn.
  destruct (isspace c && is_empty (rstrip s)) eqn:E; [reflexivity|].
  cbn. now rewrite IH, E.
Qed.

Lemma rstrip_cons (c : ascii) (t : string) :
  isspace c = false -> rstrip (String c t) = String c (rstrip t).
Proof. intros Hc. cbn [rstrip]. now rewrite Hc. Qed.

Lemma strip_idem (s : string) : strip (strip s) = strip s.
Proof.
  unfold strip. destruct (lstrip_head s) as [-> | [c [t [-> Hc]]]]; [reflexivity|].
  rewrite (rstrip_cons c t Hc). cbn [lstrip]. rewrite Hc.
  rewrite (rstrip_cons c _ Hc). now rewrite rstrip_idem.
Qed.

Lemma strip_all_space (s : string) : all_space s = true -> strip s = "".
Proof. intros H. unfold strip. now rewrite lstrip_all_space. Qed.

(** ** What each operation touches *)

Section Frames.

Variable llm : Service.

(** [run_op] without the monad. *)
Lemma run_op_eq (o : Op) (w : World) :
  run_op llm o w =
    match o with
    | NextQuestion =>
        (fst (get_next_question llm w), lift_outcome (snd (get_next_question llm w)))
    | ProcessResponse r =>
        (fst (process_response llm r w), lift_outcome (snd (process_response llm r w)))
    | Advance => (fst (advance_stage w), Ok None)
    | Reset => (mkWorld (initialize_session (self w)) (requests w), Ok None)
    | SetResume r => (mkWorld (set_resume_entities r (self w)) (requests w), Ok None)
    end.
Proof.
  destruct o as [|r| | |r]; unfold run_op, bind.
  - destruct (get_next_question llm w) as [w' [q|e]]; reflexivity.
  - destruct (process_response llm r w) as [w' [q|e]]; reflexivity.
  - rewrite advance_stage_eq. reflexivity.
  - reflexivity.
  - reflexivity.
Qed.

Lemma get_next_question_frame (w : World) :
  memory (self (fst (get_next_question llm w))) = memory (self w)
  /\ resume_entities (self (fst (get_next_question llm w))) = resume_entities (self w).
Proof.
  destruct (stage_eqb (interview_stage (self w)) introduction) eqn:Hi.
  - apply stage_eqb_eq in Hi.
    destruct (truthy (candidate_name (self w))) eqn:Hn.
    + destruct (truthy (job_position (self w))) eqn:Hj.
      * now rewrite get_next_question_welcome.
      * now rewrite get_next_question_role.
    + now rewrite get_next_question_name.
  - apply stage_eqb_neq in Hi. rewrite get_next_question_generated by exact Hi.
    destruct (llm _ _); split; reflexivity.
Qed.

Lemma decide_and_continue_frame (w : World) :
  memory (self (fst (decide_and_continue llm w))) = memory (self w)
  /\ resume_entities (self (fst (decide_and_continue llm w))) = resume_entities (self w).
Proof.
  rewrite decide_and_continue_eq.
  destruct (stage_eqb _ closing) eqn:Hc; [apply get_next_question_frame|].
  destruct (llm _ _) as [d|e]; [|split; reflexivity].
  cbv zeta.
  match goal with
  | |- context [get_next_question llm ?w'] =>
      destruct (get_next_question_frame w') as [-> ->]
  end.
  destruct (str_in "YES" d); [|split; reflexivity].
  rewrite advance_stage_eq. cbn [fst self requests]. rewrite Hc. split; reflexivity.
Qed.

Lemma process_response_resume (response : string) (w : World) :
  resume_entities (self (fst (process_response llm response w)))
  = resume_entities (self w).
Proof.
  rewrite process_response_eq. cbv zeta.
  destruct (stage_eqb _ introduction);
    [destruct (negb (truthy (candidate_name (self w))));
       [|destruct (negb (truthy (job_position (self w))))]|];
    match goal with
    | |- context [get_next_question llm ?w'] =>
        now destruct (get_next_question_frame w') as [_ ->]
    | |- context [decide_and_continue llm ?w'] =>
        now destruct (decide_and_continue_frame w') as [_ ->]
    end.
Qed.

(** Name and position after [process_response]: only the introduction
    writes them, the name first, and each from the trimmed answer. *)
Lemma process_response_fields (response : string) (w : World) :
  let s := self w in
  let s' := self (fst (process_response llm response w)) in
  if stage_eqb (interview_stage s) introduction then
    if negb (truthy (candidate_name s)) then
      candidate_name s' = Some (strip response) /\ job_position s' = job_position s
    else if negb (truthy (job_position s)) then
      candidate_name s' = candidate_name s /\ job_position s' = Some (strip response)
    else candidate_name s' = candidate_name s /\ job_position s' = job_position s
  else candidate_name s' = candidate_name s /\ job_position s' = job_position s.
Proof.
  cbv zeta. rewrite process_response_eq. cbv zeta.
  destruct (stage_eqb _ introduction);
    [destruct (negb (truthy (candidate_name (self w))));
       [|destruct (negb (truthy (job_position (self w))))]|];
    match goal with
    | |- context [get_next_question llm ?w'] =>
        destruct (get_next_question_identity llm w') as [-> ->]
    | |- context [decide_and_continue llm ?w'] =>
        destruct (decide_and_continue_identity llm w') as [-> ->]
    end; split; reflexivity.
Qed.

Lemma run_op_trimmed (o : Op) (w : World) :
  trimmed (candidate_name (self w)) /\ trimmed (job_position (self w)) ->
  trimmed (candidate_name (self (fst (run_op llm o w))))
  /\ trimmed (job_position (self (fst (run_op llm o w)))).
Proof.
  intros [Hn Hj]. rewrite run_op_eq. destruct o as [|r| | |r]; cbn [fst].
  - now destruct (get_next_question_identity llm w) as [-> ->].
  - pose proof (process_response_fields r w) as F. cbv zeta in F.
    destruct (stage_eqb _ introduction).
    + destruct (negb (truthy (candidate_name (self w)))).
      * destruct F as [-> ->]. split; [apply strip_idem | exact Hj].
      * destruct (negb (truthy (job_position (self w)))); destruct F as [-> ->];
          split; try assumption. apply strip_idem.
    + now destruct F as [-> ->].
  - now destruct (advance_stage_identity w) as [-> [-> _]].
  - split; exact I.
  - split; assumption.
Qed.

(** Reachable sessions: a position is there only beside a non-empty name. *)
Lemma run_op_name_first (o : Op) (w : World) :
  job_position (self w) = None \/ truthy (candidate_name (self w)) = true ->
  job_position (self (fst (run_op llm o w))) = None
  \/ truthy (candidate_name (self (fst (run_op llm o w)))) = true.
Proof.
  intros H. rewrite run_op_eq. destruct o as [|r| | |r]; cbn [fst].
  - now destruct (get_next_question_identity llm w) as [-> ->].
  - pose proof (process_response_fields r w) as F. cbv zeta in F.
    destruct (stage_eqb _ introduction).
    + destruct (truthy (candidate_name (self w))) eqn:Hn; cbn [negb] in F.
      * destruct (negb (truthy (job_position (self w)))); destruct F as [-> _];
          now right.
      * destruct F as [_ ->]. destruct H as [H | H]; [now left | discriminate].
    + now destruct F as [-> ->].
  - now destruct (advance_stage_identity w) as [-> [-> _]].
  - now left.
  - exact H.
Qed.

(** A non-empty field survives every operation but a reset. *)
Lemma run_op_keeps_fields (o : Op) (w : World) :
  is_reset o = false ->
  (truthy (candidate_name (self w)) = true ->
   candidate_name (self (fst (run_op llm o w))) = candidate_name (self w))
  /\ (truthy (job_position (self w)) = true ->
      job_position (self (fst (run_op llm o w))) = job_position (self w)).
Proof.
  intros Hr. rewrite run_op_eq. destruct o as [|r| | |r]; cbn [fst]; try discriminate.
  - now destruct (get_next_question_identity llm w) as [-> ->].
  - pose proof (process_response_fields r w) as F. cbv zeta in F.
    destruct (stage_eqb _ introduction).
    + destruct (truthy (candidate_name (self w))) eqn:Hn; cbn [negb] in F.
      * destruct (truthy (job_position (self w))) eqn:Hj; cbn [negb] in F;
          destruct F as [-> F]; split; try reflexivity; try discriminate.
        intros _. exact F.
      * destruct F as [_ ->]. split; [discriminate | reflexivity].
    + now destruct F as [-> ->].
  - now destruct (advance_stage_identity w) as [-> [-> _]].
  - split; reflexivity.
Qed.

End Frames.

(** X2. In every session reached from a new one, the stored name and the
    stored position carry no leading or trailing whitespace: each is the
    trimmed answer, and trimming is idempotent. *)
Theorem fields_are_stored_trimmed (llm : Service) (ops : list Op) (log : list string) :
  trimmed (candidate_name (self (run llm ops (mkWorld new_session log))))
  /\ trimmed (job_position (self (run llm ops (mkWorld new_session log)))).
Proof.
  assert (H : trimmed (candidate_name (self (mkWorld new_session log)))
              /\ trimmed (job_position (self (mkWorld new_session log))))
    by (split; exact I).
  revert H. generalize (mkWorld new_session log) as w.
  induction ops as [|o ops IH]; intros w H; [exact H|].
  cbn [run]. apply IH. now apply run_op_trimmed.
Qed.

(** X3. In every session reached from a new one, a position is recorded
    only beside a non-empty name: the introduction takes the name first, and
    an answer is never stored as the position while the name is missing. *)
Theorem position_only_after_name (llm : Service) (ops : list Op) (log : list string) :
  job_position (self (run llm ops (mkWorld new_session log))) = None
  \/ truthy (candidate_name (self (run llm ops (mkWorld new_session log)))) = true.
Proof.
  assert (H : job_position (self (mkWorld new_session log)) = None
              \/ truthy (candidate_name (self (mkWorld new_session log))) = true)
    by now left.
  revert H. generalize (mkWorld new_session log) as w.
  induction ops as [|o ops IH]; intros w H; [exact H|].
  cbn [run]. apply IH. now apply run_op_name_first.
Qed.

(** X4. Once the name is non-empty, no sequence of operations without a
    reset changes it, in any session and whatever the answers. *)
Theorem candidate_name_is_kept (llm : Service) (ops : list Op) (w : World) :
  truthy (candidate_name (self w)) = true ->
  existsb is_reset ops = false ->
  candidate_name (self (run llm ops w)) = candidate_name (self w).
Proof.
  revert w. induction ops as [|o ops IH]; intros w Hn Hops; [reflexivity|].
  cbn [existsb] in Hops. apply orb_false_iff in Hops. destruct Hops as [Ho Hops].
  destruct (run_op_keeps_fields llm o w Ho) as [K _]. specialize (K Hn).
  cbn [run]. rewrite IH; [exact K | now rewrite K | exact Hops].
Qed.

Lemma candidate_name_is_kept_witness :
  candidate_name
    (self (run (decision_service "YES")
               [ProcessResponse "Engineer"; ProcessResponse "Bob"; Advance;
                ProcessResponse ""; NextQuestion]
               alice_world))
  = Some "Alice".
Proof.
  apply (candidate_name_is_kept
           (decision_service "YES")
           [ProcessResponse "Engineer"; ProcessResponse "Bob"; Advance;
            ProcessResponse ""; NextQuestion]
           alice_world); reflexivity.
Defined.

(** X5. Once the position is non-empty, no sequence of operations without a
    reset changes it. *)
Theorem job_position_is_kept (llm : Service) (ops : list Op) (w : World) :
  truthy (job_position (self w)) = true ->
  existsb is_reset ops = false ->
  job_position (self (run llm ops w)) = job_position (self w).
Proof.
  revert w. induction ops as [|o ops IH]; intros w Hj Hops; [reflexivity|].
  cbn [existsb] in Hops. apply orb_false_iff in Hops. destruct Hops as [Ho Hops].
  destruct (run_op_keeps_fields llm o w Ho) as [_ K]. specialize (K Hj).
  cbn [run]. rewrite IH; [exact K | now rewrite K | exact Hops].
Qed.

Lemma job_position_is_kept_witness :
  job_position
    (self (run (decision_service "YES")
               [NextQuestion; ProcessResponse "Manager"; Advance; ProcessResponse "  "]
               alice_engineer_world))
  = Some "Engineer".
Proof.
  apply (job_position_is_kept
           (decision_service "YES")
           [NextQuestion; ProcessResponse "Manager"; Advance; ProcessResponse "  "]
           alice_engineer_world); reflexivity.
Defined.

(** ** Advancing *)

Lemma stage_index_bound (st : Stage) : stage_index st <= 5.
Proof. destruct st; cbv; lia. Qed.

(** X6. [advance_stage] called [n] times never raises and moves the stage
    [n] places along the fixed order, stopping at [closing]; it touches no
    other field and sends no request. *)
Theorem advance_times_stage (n : nat) (w : World) :
  snd (advance_times n w) = Ok tt
  /\ stage_index (interview_stage (self (fst (advance_times n w))))
     = Nat.min (stage_index (interview_stage (self w)) + n) 5
  /\ set_interview_stage (interview_stage (self w)) (self (fst (advance_times n w)))
     = self w
  /\ requests (fst (advance_times n w)) = requests w.
Proof.
  revert w. induction n as [|n IH]; intros w.
  - cbn [advance_times ret fst snd]. pose proof (stage_index_bound (interview_stage (self w))).
    repeat split; [lia | now destruct (self w)].
  - cbn [advance_times]. unfold bind. rewrite advance_stage_eq.
    destruct (IH (if stage_eqb (interview_stage (self w)) closing then w
                  else mkWorld (set_interview_stage
                                  (next_stage (interview_stage (self w))) (self w))
                               (requests w)))
      as [H1 [H2 [H3 H4]]].
    split; [exact H1|]. rewrite H2, H4. clear H1 H2 H4.
    destruct (stage_eqb (interview_stage (self w)) closing) eqn:Hc.
    + apply stage_eqb_eq in Hc. rewrite Hc. repeat split; [cbn; lia|].
      rewrite Hc in H3. exact H3.
    + apply stage_eqb_neq in Hc. cbn [self requests interview_stage set_interview_stage].
      rewrite (stage_index_next _ Hc). repeat split; [f_equal; lia|].
      revert H3. generalize (self (fst (advance_times n
        (mkWorld (set_interview_stage (next_stage (interview_stage (self w))) (self w))
                 (requests w))))) as s'.
      intros s' H3. cbn [self interview_stage set_interview_stage] in H3.
      destruct (self w) as [a b c d e f]. destruct s' as [a' b' c' d' e' f'].
      unfold set_interview_stage in *. cbn in *. congruence.
Qed.

Lemma stage_step_closing (b : Stage) : stage_step closing b -> b = closing.
Proof. intros [-> | H]; [reflexivity|]. destruct b; cbv in H; congruence. Qed.

(** X7. [closing] is final: from a session at [closing], no sequence of
    operations without a reset leads to another stage, whatever the service
    answers. *)
Theorem closing_is_final (llm : Service) (ops : list Op) (w : World) :
  interview_stage (self w) = closing ->
  existsb is_reset ops = false ->
  interview_stage (self (run llm ops w)) = closing.
Proof.
  revert w. induction ops as [|o ops IH]; intros w Hc Hops; [exact Hc|].
  cbn [existsb] in Hops. apply orb_false_iff in Hops. destruct Hops as [Ho Hops].
  cbn [run]. apply IH; [|exact Hops].
  destruct (run_op_forward llm o w) as [H | H]; [congruence|].
  rewrite Hc in H. now apply stage_step_closing.
Qed.

Lemma closing_is_final_witness :
  interview_stage
    (self (run (decision_service "YES")
               [ProcessResponse "Any questions?"; Advance; NextQuestion; SetResume None]
               closing_world))
  = closing.
Proof.
  apply (closing_is_final
           (decision_service "YES")
           [ProcessResponse "Any questions?"; Advance; NextQuestion; SetResume None]
           closing_world); reflexivity.
Defined.

(** X8. At [closing], [process_response] records the exchange and asks for
    the next question only: it sends one request, never the advance
    request, ends as that request ends, and the stage stays [closing]. *)
Theorem process_response_at_closing (llm : Service) (answer : string) (w : World) :
  interview_stage (self w) = closing ->
  let s1 := save_context (last_question (self w)) answer (self w) in
  requests (fst (process_response llm answer w))
    = (requests w ++ [question_request s1])%list
  /\ snd (process_response llm answer w) = llm (requests w) (question_request s1)
  /\ memory (self (fst (process_response llm answer w))) = memory s1
  /\ interview_stage (self (fst (process_response llm answer w))) = closing.
Proof.
  intros Hc. cbv zeta.
  set (w1 := mkWorld (save_context (last_question (self w)) answer (self w))
                     (requests w)).
  assert (Hc1 : interview_stage (self w1) = closing) by exact Hc.
  assert (E : process_response llm answer w = get_next_question llm w1).
  { rewrite process_response_eq. cbv zeta. rewrite Hc. cbn [stage_eqb]. fold w1.
    rewrite decide_and_continue_eq, Hc1. reflexivity. }
  rewrite E, get_next_question_generated by (rewrite Hc1; discriminate).
  change (self w1) with (save_context (last_question (self w)) answer (self w)).
  change (requests w1) with (requests w).
  destruct (llm _ _); repeat split; exact Hc.
Qed.

Lemma process_response_at_closing_witness :
  requests (fst (process_response (decision_service "YES") "No questions." closing_world))
  = [question_request (save_context "" "No questions." (self closing_world))].
Proof.
  destruct (process_response_at_closing
              (decision_service "YES") "No questions." closing_world)
    as [H _]; [reflexivity|].
  exact H.
Defined.

(** ** Exceptions and the last question *)

Section Outcomes.

Variable llm : Service.

Lemma get_next_question_raises (w : World) (e : exn) :
  snd (get_next_question llm w) = Raise e ->
  requests (fst (get_next_question llm w))
    = (requests w ++ [question_request (self w)])%list
  /\ llm (requests w) (question_request (self w)) = Raise e.
Proof.
  destruct (stage_eqb (interview_stage (self w)) introduction) eqn:Hi.
  - apply stage_eqb_eq in Hi.
    destruct (truthy (candidate_name (self w))) eqn:Hn.
    + destruct (truthy (job_position (self w))) eqn:Hj.
      * rewrite get_next_question_welcome by assumption. discriminate.
      * rewrite get_next_question_role by assumption. discriminate.
    + rewrite get_next_question_name by assumption. discriminate.
  - apply stage_eqb_neq in Hi. rewrite get_next_question_generated by exact Hi.
    destruct (llm _ _) as [q|e']; [discriminate|].
    cbn [fst snd requests]. intros H. now split.
Qed.

Lemma get_next_question_returns (w : World) (q : string) :
  snd (get_next_question llm w) = Ok q ->
  last_question (self (fst (get_next_question llm w))) = q.
Proof.
  destruct (stage_eqb (interview_stage (self w)) introduction) eqn:Hi.
  - apply stage_eqb_eq in Hi.
    destruct (truthy (candidate_name (self w))) eqn:Hn.
    + destruct (truthy (job_position (self w))) eqn:Hj.
      * rewrite get_next_question_welcome by assumption. cbn. congruence.
      * rewrite get_next_question_role by assumption. cbn. congruence.
    + rewrite get_next_question_name by assumption. cbn. congruence.
  - apply stage_eqb_neq in Hi. rewrite get_next_question_generated by exact Hi.
    destruct (llm _ _) as [q'|e']; [|discriminate]. cbn. congruence.
Qed.

(** The world [decide_and_continue] hands to [get_next_question], when it
    gets that far. *)
Lemma decide_and_continue_cases (w : World) :
  (exists e, llm (requests w) (advance_request (self w)) = Raise e
             /\ interview_stage (self w) <> closing
             /\ decide_and_continue llm w
                = (mkWorld (self w) (requests w ++ [advance_request (self w)]), Raise e))
  \/ (exists w' sent,
        decide_and_continue llm w = get_next_question llm w'
        /\ requests w' = (requests w ++ sent)%list
        /\ List.length sent <= 1).
Proof.
  rewrite decide_and_continue_eq.
  destruct (stage_eqb _ closing) eqn:Hc.
  - right. exists w, []. rewrite app_nil_r. repeat split. cbn. lia.
  - apply stage_eqb_neq in Hc.
    destruct (llm (requests w) (advance_request (self w))) as [d|e] eqn:Hd.
    + right. cbv zeta.
      exists (if str_in "YES" d
              then fst (advance_stage
                          (mkWorld (self w) (requests w ++ [advance_request (self w)])))
              else mkWorld (self w) (requests w ++ [advance_request (self w)])),
             [advance_request (self w)].
      split; [reflexivity|]. split; [|cbn; lia].
      destruct (str_in "YES" d); [|reflexivity].
      now destruct (advance_stage_identity
                      (mkWorld (self w) (requests w ++ [advance_request (self w)])))
        as [_ [_ ->]].
    + left. exists e. repeat split; assumption.
Qed.

(** The world [process_response] hands to its last step. *)
Lemma process_response_cases (response : string) (w : World) :
  (exists w', process_response llm response w = get_next_question llm w'
              /\ requests w' = requests w)
  \/ (exists w', process_response llm response w = decide_and_continue llm w'
                 /\ requests w' = requests w).
Proof.
  rewrite process_response_eq. cbv zeta.
  destruct (stage_eqb _ introduction);
    [destruct (negb (truthy (candidate_name (self w))));
       [|destruct (negb (truthy (job_position (self w))))]|];
    match goal with
    | |- context [get_next_question llm ?w'] => left; now exists w'
    | |- context [decide_and_continue llm ?w'] => right; now exists w'
    end.
Qed.

Lemma decide_and_continue_raises (w : World) (e : exn) :
  snd (decide_and_continue llm w) = Raise e ->
  exists mid p,
    requests (fst (decide_and_continue llm w)) = (requests w ++ mid ++ [p])%list
    /\ llm (requests w ++ mid)%list p = Raise e.
Proof.
  destruct (decide_and_continue_cases w) as [[e' [Hd [_ ->]]] | [w' [sent [-> [Hr _]]]]].
  - cbn [fst snd requests]. intros H. injection H as <-.
    exists [], (advance_request (self w)). now rewrite app_nil_r.
  - intros H. destruct (get_next_question_raises w' e H) as [H1 H2].
    exists sent, (question_request (self w')). rewrite H1, Hr in *.
    split; [now rewrite <- app_assoc | exact H2].
Qed.

Lemma process_response_raises (response : string) (w : World) (e : exn) :
  snd (process_response llm response w) = Raise e ->
  exists mid p,
    requests (fst (process_response llm response w)) = (requests w ++ mid ++ [p])%list
    /\ llm (requests w ++ mid)%list p = Raise e.
Proof.
  destruct (process_response_cases response w) as [[w' [-> Hr]] | [w' [-> Hr]]]; intros H.
  - destruct (get_next_question_raises w' e H) as [H1 H2].
    exists [], (question_request (self w')). rewrite app_nil_r, H1, <- Hr. now split.
  - destruct (decide_and_continue_raises w' e H) as [mid [p [H1 H2]]].
    exists mid, p. rewrite H1, <- Hr. now split.
Qed.

Lemma process_response_returns (response : string) (w : World) (q : string) :
  snd (process_response llm response w) = Ok q ->
  last_question (self (fst (process_response llm response w))) = q.
Proof.
  destruct (process_response_cases response w) as [[w' [-> _]] | [w' [-> _]]].
  - apply get_next_question_returns.
  - destruct (decide_and_continue_cases w') as [[e' [_ [_ ->]]] | [w2 [sent [-> _]]]].
    + discriminate.
    + apply get_next_question_returns.
Qed.

End Outcomes.

(** X9. The controller raises nothing of its own: when an operation ends
    with an exception, that exception was raised by the service on the last
    request the operation sent. *)
Theorem exceptions_come_from_the_service
  (llm : Service) (o : Op) (w : World) (e : exn) :
  snd (run_op llm o w) = Raise e ->
  exists mid p,
    requests (fst (run_op llm o w)) = (requests w ++ mid ++ [p])%list
    /\ llm (requests w ++ mid)%list p = Raise e.
Proof.
  rewrite run_op_eq. destruct o as [|r| | |r]; cbn [fst snd]; try discriminate.
  - intros H.
    destruct (snd (get_next_question llm w)) as [q|e'] eqn:E; [discriminate|].
    injection H as <-. destruct (get_next_question_raises llm w e' E) as [H1 H2].
    exists [], (question_request (self w)). rewrite app_nil_r. now split.
  - intros H.
    destruct (snd (process_response llm r w)) as [q|e'] eqn:E; [discriminate|].
    injection H as <-. now apply process_response_raises.
Qed.

Lemma exceptions_come_from_the_service_witness :
  exists mid p,
    requests (fst (run_op silent_service (ProcessResponse "Hello") general_world))
      = (requests general_world ++ mid ++ [p])%list
    /\ silent_service (requests general_world ++ mid)%list p
       = Raise (ServiceError "unavailable").
Proof.
  apply (exceptions_come_from_the_service
           silent_service (ProcessResponse "Hello") general_world
           (ServiceError "unavailable")).
  reflexivity.
Defined.

(** X10. When an operation returns a question, [last_question] holds that
    question afterwards, so the next recorded exchange is paired with it. *)
Theorem last_question_is_the_question_returned
  (llm : Service) (o : Op) (w : World) (q : string) :
  snd (run_op llm o w) = Ok (Some q) ->
  last_question (self (fst (run_op llm o w))) = q.
Proof.
  rewrite run_op_eq. destruct o as [|r| | |r]; cbn [fst snd]; try discriminate.
  - intros H.
    destruct (snd (get_next_question llm w)) as [q'|e'] eqn:E; [|discriminate].
    injection H as <-. now apply get_next_question_returns.
  - intros H.
    destruct (snd (process_response llm r w)) as [q'|e'] eqn:E; [|discriminate].
    injection H as <-. now apply process_response_returns.
Qed.

Lemma last_question_is_the_question_returned_witness :
  last_question
    (self (fst (run_op (decision_service "NO") (ProcessResponse "Hello") general_world)))
  = "Tell me more.".
Proof.
  apply (last_question_is_the_question_returned
           (decision_service "NO") (ProcessResponse "Hello") general_world).
  reflexivity.
Defined.

(** ** Failures in the middle of [process_response] *)

(** X11. When the service raises on the advance request, [process_response]
    ends with that exception after recording the exchange: the buffer has
    the new pair, nothing else in the session has changed.  Calling it again
    with the same answer records the same pair a second time. *)
Theorem process_response_decision_failure
  (llm : Service) (w : World) (answer : string) (e : exn) :
  interview_stage (self w) <> introduction ->
  interview_stage (self w) <> closing ->
  llm (requests w)
      (advance_request (save_context (last_question (self w)) answer (self w)))
    = Raise e ->
  let s1 := save_context (last_question (self w)) answer (self w) in
  process_response llm answer w
    = (mkWorld s1 (requests w ++ [advance_request s1]), Raise e)
  /\ memory (self (fst (process_response llm answer
                          (fst (process_response llm answer w)))))
     = (memory (self w) ++ exchange_msgs (last_question (self w), answer)
                        ++ exchange_msgs (last_question (self w), answer))%list.
Proof.
  intros Hi Hc Hd. cbv zeta.
  assert (E : process_response llm answer w
              = (mkWorld (save_context (last_question (self w)) answer (self w))
                         (requests w ++ [advance_request
                            (save_context (last_question (self w)) answer (self w))]),
                 Raise e)).
  { rewrite process_response_eq. cbv zeta.
    apply stage_eqb_neq in Hi. rewrite Hi. rewrite decide_and_continue_eq.
    cbn [self requests]. apply stage_eqb_neq in Hc.
    change (interview_stage (save_context (last_question (self w)) answer (self w)))
      with (interview_stage (self w)).
    now rewrite Hc, Hd. }
  split; [exact E|].
  rewrite process_response_memory, E. cbn [fst self].
  cbn [save_context set_memory memory last_question].
  now rewrite <- app_assoc.
Qed.

Lemma process_response_decision_failure_witness :
  process_response silent_service "Hello" general_world
  = (mkWorld (save_context "" "Hello" (self general_world))
             [advance_request (save_context "" "Hello" (self general_world))],
     Raise (ServiceError "unavailable")).
Proof.
  destruct (process_response_decision_failure
              silent_service general_world "Hello" (ServiceError "unavailable"))
    as [H _]; [discriminate | discriminate | reflexivity |].
  exact H.
Defined.

(** X12. When the advance request is answered with YES and the question
    request that follows raises, [process_response] ends with that
    exception although the stage has already moved on: the caller sees a
    failure, the session is one stage further, with the old last question. *)
Theorem process_response_question_failure
  (llm : Service) (w : World) (answer d : string) (e : exn) :
  interview_stage (self w) <> introduction ->
  interview_stage (self w) <> closing ->
  let s1 := save_context (last_question (self w)) answer (self w) in
  let s2 := set_interview_stage (next_stage (interview_stage (self w))) s1 in
  llm (requests w) (advance_request s1) = Ok d ->
  str_in "YES" d = true ->
  llm (requests w ++ [advance_request s1])%list (question_request s2) = Raise e ->
  process_response llm answer w
    = (mkWorld s2 (requests w ++ [advance_request s1] ++ [question_request s2]),
       Raise e).
Proof.
  intros Hi Hc. cbv zeta. intros Hd Hyes Hq.
  rewrite process_response_eq. cbv zeta.
  pose proof Hi as Hi'. apply stage_eqb_neq in Hi'. rewrite Hi'.
  rewrite decide_and_continue_eq. cbn [self requests].
  change (interview_stage (save_context (last_question (self w)) answer (self w)))
    with (interview_stage (self w)).
  pose proof Hc as Hc'. apply stage_eqb_neq in Hc'. rewrite Hc', Hd. cbv zeta.
  rewrite Hyes, advance_stage_eq. cbn [fst self requests].
  change (interview_stage (save_context (last_question (self w)) answer (self w)))
    with (interview_stage (self w)).
  rewrite Hc'.
  rewrite get_next_question_generated.
  - cbn [self requests]. rewrite Hq. now rewrite <- app_assoc.
  - cbn [self set_interview_stage interview_stage].
    destruct (interview_stage (self w)); discriminate.
Qed.

Lemma process_response_question_failure_witness :
  interview_stage (self (fst (process_response yes_then_down "Hello" general_world)))
  = technical_questions
  /\ snd (process_response yes_then_down "Hello" general_world)
     = Raise (ServiceError "unavailable").
Proof.
  rewrite (process_response_question_failure
             yes_then_down general_world "Hello" "YES" (ServiceError "unavailable"));
    try reflexivity; try discriminate.
  split; reflexivity.
Defined.

(** ** The introduction *)

Section Scripted.

Variable llm : Service.

Lemma get_next_question_scripted (w : World) :
  interview_stage (self w) = introduction ->
  requests (fst (get_next_question llm w)) = requests w
  /\ exists q,
       snd (get_next_question llm w) = Ok q
       /\ (q = name_prompt
           \/ q = role_prompt (candidate_name (self w))
           \/ q = welcome_prompt (candidate_name (self w)) (job_position (self w))).
Proof.
  intros Hi.
  destruct (truthy (candidate_name (self w))) eqn:Hn.
  - destruct (truthy (job_position (self w))) eqn:Hj.
    + rewrite get_next_question_welcome by assumption. split; [reflexivity|].
      eexists; split; [reflexivity | now right; right].
    + rewrite get_next_question_role by assumption. split; [reflexivity|].
      eexists; split; [reflexivity | now right; left].
  - rewrite get_next_question_name by assumption. split; [reflexivity|].
    eexists; split; [reflexivity | now left].
Qed.

End Scripted.

(** X13. The introduction runs without the service: in a session reached
    from a new one and still in the introduction, [get_next_question] and
    [process_response] send no request, never raise, and return one of the
    three scripted questions, filled in from the fields as they are after
    the call. *)
Theorem introduction_is_scripted
  (llm : Service) (ops : list Op) (log : list string) (o : Op) :
  let w := run llm ops (mkWorld new_session log) in
  let w' := fst (run_op llm o w) in
  interview_stage (self w) = introduction ->
  asks o = true ->
  requests w' = requests w
  /\ exists q,
       snd (run_op llm o w) = Ok (Some q)
       /\ (q = name_prompt
           \/ q = role_prompt (candidate_name (self w'))
           \/ q = welcome_prompt (candidate_name (self w')) (job_position (self w'))).
Proof.
  cbv zeta. intros Hi Ho.
  assert (Inv : intro_inv (self (run llm ops (mkWorld new_session log)))).
  { apply run_intro_inv. intros _. reflexivity. }
  specialize (Inv Hi). revert Hi Inv.
  generalize (run llm ops (mkWorld new_session log)) as w. intros w Hi Hj.
  assert (G : forall w1 : World,
             interview_stage (self w1) = introduction ->
             requests (fst (get_next_question llm w1)) = requests w1
             /\ exists q,
                  lift_outcome (snd (get_next_question llm w1)) = Ok (Some q)
                  /\ (q = name_prompt
                      \/ q = role_prompt
                               (candidate_name (self (fst (get_next_question llm w1))))
                      \/ q = welcome_prompt
                               (candidate_name (self (fst (get_next_question llm w1))))
                               (job_position (self (fst (get_next_question llm w1)))))).
  { intros w1 H1. destruct (get_next_question_scripted llm w1 H1) as [R [q [Hq Hcase]]].
    destruct (get_next_question_identity llm w1) as [-> ->].
    split; [exact R|]. exists q. rewrite Hq. now split. }
  rewrite run_op_eq. destruct o as [|r| | |r]; try discriminate; cbn [fst snd].
  - now apply G.
  - rewrite process_response_eq. cbv zeta.
    pose proof Hi as Hi'. apply stage_eqb_eq in Hi'. rewrite Hi', Hj.
    destruct (negb (truthy (candidate_name (self w)))); cbn [negb];
      match goal with
      | |- context [get_next_question llm ?w1] =>
          destruct (G w1) as [R Q]; [exact Hi | split; [exact R | exact Q]]
      end.
Qed.

Lemma introduction_is_scripted_witness :
  requests (fst (run_op silent_service (ProcessResponse "Engineer")
                        (run silent_service [NextQuestion; ProcessResponse "Alice"]
                             (mkWorld new_session []))))
  = [].
Proof.
  destruct (introduction_is_scripted
              silent_service [NextQuestion; ProcessResponse "Alice"] []
              (ProcessResponse "Engineer")) as [H _]; [reflexivity | reflexivity |].
  exact H.
Defined.

(** X14. A blank answer in the introduction is asked over: while the
    position is unset, [process_response] on an answer made of whitespace
    only returns the very question [get_next_question] would have returned
    before it, sends no request and leaves the stage alone; the blank
    exchange is still recorded. *)
Theorem blank_answer_is_asked_again (llm : Service) (w : World) (answer : string) :
  interview_stage (self w) = introduction ->
  truthy (job_position (self w)) = false ->
  all_space answer = true ->
  snd (process_response llm answer w) = snd (get_next_question llm w)
  /\ requests (fst (process_response llm answer w)) = requests w
  /\ interview_stage (self (fst (process_response llm answer w))) = introduction
  /\ memory (self (fst (process_response llm answer w)))
     = (memory (self w) ++ exchange_msgs (last_question (self w), answer))%list.
Proof.
  intros Hi Hj Hblank.
  split; [|split; [|split; [|apply process_response_memory]]].
  all: rewrite process_response_eq; cbv zeta.
  all: pose proof Hi as Hi'; apply stage_eqb_eq in Hi'; rewrite Hi', Hj.
  all: rewrite (strip_all_space answer Hblank).
  all: destruct (truthy (candidate_name (self w))) eqn:Hn; cbn [negb].
  all: try rewrite (get_next_question_role llm w) by assumption.
  all: try rewrite (get_next_question_name llm w) by assumption.
  all: match goal with
       | |- context [get_next_question ?l ?w'] =>
           first [ rewrite (get_next_question_role l w')
                     by (first [exact Hi | exact Hn | reflexivity])
                 | rewrite (get_next_question_name l w')
                     by (first [exact Hi | reflexivity]) ]
       end.
  all: first [reflexivity | exact Hi].
Qed.

Lemma blank_answer_is_asked_again_witness :
  snd (process_response silent_service "   " alice_world)
  = snd (get_next_question silent_service alice_world).
Proof.
  destruct (blank_answer_is_asked_again silent_service alice_world "   ")
    as [H _]; [reflexivity | reflexivity | reflexivity |].
  exact H.
Defined.

(** X15. In the introduction, while the position is unset, asking again
    changes nothing: a second [get_next_question] returns the same scripted
    question and leaves the world as the first one left it. *)
Theorem get_next_question_repeats (llm : Service) (w : World) :
  interview_stage (self w) = introduction ->
  truthy (job_position (self w)) = false ->
  get_next_question llm (fst (get_next_question llm w)) = get_next_question llm w.
Proof.
  intros Hi Hj. destruct (truthy (candidate_name (self w))) eqn:Hn.
  - rewrite (get_next_question_role llm w) by assumption. cbn [fst].
    rewrite get_next_question_role; try assumption. reflexivity.
  - rewrite (get_next_question_name llm w) by assumption. cbn [fst].
    rewrite get_next_question_name; try assumption. reflexivity.
Qed.

Lemma get_next_question_repeats_witness :
  get_next_question silent_service (fst (get_next_question silent_service alice_world))
  = get_next_question silent_service alice_world.
Proof.
  apply (get_next_question_repeats silent_service alice_world); reflexivity.
Defined.

(** ** Requests *)

(** X16. An operation only adds to the requests sent, and adds few:
    [get_next_question] at most one, [process_response] at most two, the
    other operations none. *)
Theorem requests_per_operation (llm : Service) (o : Op) (w : World) :
  exists sent,
    requests (fst (run_op llm o w)) = (requests w ++ sent)%list
    /\ List.length sent <= match o with
                           | NextQuestion => 1
                           | ProcessResponse _ => 2
                           | _ => 0
                           end.
Proof.
  assert (G : forall w1, exists sent,
               requests (fst (get_next_question llm w1)) = (requests w1 ++ sent)%list
               /\ List.length sent <= 1).
  { intros w1. destruct (stage_eqb (interview_stage (self w1)) introduction) eqn:Hi.
    - apply stage_eqb_eq in Hi.
      destruct (get_next_question_scripted llm w1 Hi) as [R _].
      exists []. rewrite app_nil_r. split; [exact R | cbn; lia].
    - apply stage_eqb_neq in Hi.
      destruct (get_next_question_answered llm w1 Hi) as [p [R _]].
      exists [p]. split; [exact R | cbn; lia]. }
  rewrite run_op_eq. destruct o as [|r| | |r]; cbn [fst].
  - apply G.
  - destruct (process_response_cases llm r w) as [[w1 [-> Hr]] | [w1 [-> Hr]]].
    + destruct (G w1) as [sent [R L]]. exists sent. rewrite R, Hr. split; [reflexivity | lia].
    + destruct (decide_and_continue_cases llm w1)
        as [[e [_ [_ ->]]] | [w2 [sent [-> [R2 L2]]]]].
      * exists [advance_request (self w1)]. cbn [fst requests]. rewrite Hr.
        split; [reflexivity | cbn; lia].
      * destruct (G w2) as [sent' [R L]]. exists (sent ++ sent')%list.
        rewrite R, R2, Hr, app_assoc, length_app. split; [reflexivity | lia].
  - exists []. rewrite app_nil_r.
    destruct (advance_stage_identity w) as [_ [_ ->]]. split; [reflexivity | cbn; lia].
  - exists []. rewrite app_nil_r. split; [reflexivity | cbn; lia].
  - exists []. rewrite app_nil_r. split; [reflexivity | cbn; lia].
Qed.

(** * The command-line loop *)

(** X17. Every turn of the loop reads a line: a run displays at most one
    question more than there are lines to read. *)
Theorem run_interview_displays_per_line (llm : Service) (stdin : list string) :
  List.length (shown (run_interview llm stdin)) <= List.length stdin + 1.
Proof.
  unfold run_interview.
  set (w := mkWorld _ _).
  change (List.length (shown (interview_loop llm stdin w [])) <=
          List.length (@nil string) + List.length stdin + 1).
  generalize (@nil string) as displayed. revert w. intros w displayed.
  functional induction (interview_loop llm stdin w displayed);
    cbn [shown List.length] in *; rewrite ?length_app in *; cbn [List.length] in *; lia.
Qed.

(** X18. Reaching the last stage does not end a run.  The loop is left in
    the normal way only on an exit line, or after a displayed question with
    one of the two closing phrases. *)
Theorem run_interview_finishes_on_request (llm : Service) (stdin : list string) :
  ending (run_interview llm stdin) = Finished ->
  (exists line, In line stdin /\ lower line = "/exit")
  \/ (exists q, In q (shown (run_interview llm stdin)) /\ closes_interview q = true).
Proof.
  unfold run_interview. set (w := mkWorld _ _). generalize (@nil string) as displayed.
  revert w. intros w displayed.
  functional induction (interview_loop llm stdin w displayed); cbn [ending shown];
    try discriminate.
  - intros H. destruct (IHc H) as [[line [Hin Hl]] | R]; [left | now right].
    exists line. split; [now right | exact Hl].
  - intros _. left. exists response. split; [now left | now apply String.eqb_eq].
  - intros H. destruct (IHc H) as [[line [Hin Hl]] | R]; [left | now right].
    exists line. split; [now right; right | exact Hl].
  - intros _. right. exists question. split; [|assumption].
    apply in_or_app. right. now left.
  - intros H. destruct (IHc H) as [[line [Hin Hl]] | R]; [left | now right].
    exists line. split; [now right | exact Hl].
Qed.

Lemma run_interview_finishes_on_request_witness :
  (exists line, In line ["Alice"; "/Exit"] /\ lower line = "/exit")
  \/ (exists q, In q (shown (run_interview silent_service ["Alice"; "/Exit"]))
                /\ closes_interview q = true).
Proof.
  apply (run_interview_finishes_on_request silent_service ["Alice"; "/Exit"]).
  reflexivity.
Defined.

(** X19. Nothing in the loop catches an exception, and only the service
    raises one: a run that ends with an uncaught exception ends with an
    exception the service raised on some request. *)
Theorem run_interview_uncaught_is_from_service
  (llm : Service) (stdin : list string) (e : exn) :
  ending (run_interview llm stdin) = Uncaught e ->
  exists log p, llm log p = Raise e.
Proof.
  unfold run_interview. set (w := mkWorld _ _). generalize (@nil string) as displayed.
  revert w. intros w displayed.
  functional induction (interview_loop llm stdin w displayed); cbn [ending];
    try discriminate; try assumption.
  - intros H. injection H as <-.
    match goal with
    | Hg : get_next_question _ _ = (_, Raise ?x) |- _ =>
        assert (E : snd (get_next_question llm w) = Raise x) by (now rewrite Hg);
        destruct (get_next_question_raises llm w x E) as [_ R]
    end.
    eauto.
  - intros H. injection H as <-.
    match goal with
    | Hg : process_response _ ?r ?w' = (_, Raise ?x) |- _ =>
        assert (E : snd (process_response llm r w') = Raise x) by (now rewrite Hg);
        destruct (process_response_raises llm r w' x E) as [mid [p [_ R]]]
    end.
    eauto.
Qed.

Lemma run_interview_uncaught_is_from_service_witness :
  exists log p, silent_service log p = Raise (ServiceError "unavailable").
Proof.
  apply (run_interview_uncaught_is_from_service
           silent_service ["Alice"; "Engineer"; "Hello"] (ServiceError "unavailable")).
  reflexivity.
Defined.

Section Loop.

Variable llm : Service.

Lemma restart_intro_inv (w : World) : intro_inv (self (restart w)).
Proof. intros _. reflexivity. Qed.

Lemma process_response_intro_inv (response : string) (w : World) :
  intro_inv (self w) -> intro_inv (self (fst (process_response llm response w))).
Proof.
  intros Inv. pose proof (run_op_intro_inv llm (ProcessResponse response) w Inv) as H.
  rewrite run_op_eq in H. exact H.
Qed.

(** At the top of the loop the welcome is never the scripted answer. *)
Lemma loop_question_kind (w w1 : World) (q : string) :
  intro_inv (self w) ->
  get_next_question llm w = (w1, Ok q) ->
  scripted_or_generated llm q.
Proof.
  intros Inv E. unfold scripted_or_generated.
  destruct (stage_eqb (interview_stage (self w)) introduction) eqn:Hi.
  - apply stage_eqb_eq in Hi. specialize (Inv Hi).
    destruct (truthy (candidate_name (self w))) eqn:Hn.
    + rewrite get_next_question_role in E by assumption.
      injection E as _ <-. right; left.
      destruct (candidate_name (self w)) as [n|]; [now exists n | discriminate].
    + rewrite get_next_question_name in E by assumption.
      injection E as _ <-. now left.
  - apply stage_eqb_neq in Hi. rewrite get_next_question_generated in E by exact Hi.
    destruct (llm (requests w) (question_request (self w))) as [q'|e] eqn:Hq;
      [|discriminate].
    injection E as _ <-. right; right. eauto.
Qed.

Lemma interview_loop_kinds (stdin : list string) (w : World) (displayed : list string) :
  intro_inv (self w) ->
  Forall (scripted_or_generated llm) displayed ->
  Forall (scripted_or_generated llm) (shown (interview_loop llm stdin w displayed)).
Proof.
  functional induction (interview_loop llm stdin w displayed);
    cbn [shown]; intros Inv Hd; try exact Hd;
    match goal with
    | Hg : get_next_question _ ?w0 = (?w', Ok ?q) |- _ =>
        pose proof (loop_question_kind w0 w' q Inv Hg) as Hq;
        assert (Hd' : Forall (scripted_or_generated llm) (displayed ++ [q]))
          by (apply Forall_app; split; [exact Hd | now constructor]);
        assert (Inv1 : intro_inv (self w'))
          by (pose proof (get_next_question_intro_inv llm w0 Inv) as Hi;
              now rewrite Hg in Hi)
    end;
    try exact Hd'.
  - apply IHc; [apply restart_intro_inv | exact Hd'].
  - apply IHc; [apply restart_intro_inv | exact Hd'].
  - apply IHc; [|exact Hd'].
    match goal with
    | Hp : process_response _ ?r ?w' = (_, _) |- _ =>
        pose proof (process_response_intro_inv r w' Inv1) as Hi; now rewrite Hp in Hi
    end.
Qed.

(** The requests one method sends, as the loop sees them. *)
Lemma get_next_question_sent (w : World) :
  resume_entities (self w) = Some (resume_of sample_resume_info) ->
  exists sent,
    requests (fst (get_next_question llm w)) = (requests w ++ sent)%list
    /\ Forall carries_sample sent.
Proof.
  intros Hr. destruct (stage_eqb (interview_stage (self w)) introduction) eqn:Hi.
  - apply stage_eqb_eq in Hi. destruct (get_next_question_scripted llm w Hi) as [R _].
    exists []. rewrite app_nil_r. now split.
  - apply stage_eqb_neq in Hi. exists [question_request (self w)].
    rewrite get_next_question_generated by exact Hi. split.
    + destruct (llm _ _); reflexivity.
    + constructor; [|constructor]. right. unfold question_request. rewrite Hr.
      cbn [resume_of re_bool re_str py_bool sample_resume_info]. eauto.
Qed.

Lemma decide_and_continue_sent (w : World) :
  resume_entities (self w) = Some (resume_of sample_resume_info) ->
  exists sent,
    requests (fst (decide_and_continue llm w)) = (requests w ++ sent)%list
    /\ Forall carries_sample sent.
Proof.
  intros Hr. rewrite decide_and_continue_eq.
  destruct (stage_eqb _ closing) eqn:Hc; [now apply get_next_question_sent|].
  destruct (llm _ _) as [d|e].
  - cbv zeta.
    set (w1 := mkWorld (self w) (requests w ++ [advance_request (self w)])).
    set (w2 := if str_in "YES" d then fst (advance_stage w1) else w1).
    assert (H2 : resume_entities (self w2) = Some (resume_of sample_resume_info)
                  /\ requests w2 = requests w1).
    { unfold w2. destruct (str_in "YES" d); [|now split].
      rewrite advance_stage_eq. cbn [fst].
      destruct (stage_eqb (interview_stage (self w1)) closing); now split. }
    destruct H2 as [Hr2 Hq2].
    destruct (get_next_question_sent w2 Hr2) as [sent [R F]].
    exists (advance_request (self w) :: sent). rewrite R, Hq2. cbn [w1 requests].
    split; [now rewrite <- app_assoc|].
    constructor; [left; now exists (self w) | exact F].
  - exists [advance_request (self w)]. split; [reflexivity|].
    constructor; [left; now exists (self w) | constructor].
Qed.

Lemma process_response_sent (response : string) (w : World) :
  resume_entities (self w) = Some (resume_of sample_resume_info) ->
  exists sent,
    requests (fst (process_response llm response w)) = (requests w ++ sent)%list
    /\ Forall carries_sample sent.
Proof.
  intros Hr. rewrite process_response_eq. cbv zeta.
  destruct (stage_eqb _ introduction);
    [destruct (negb (truthy (candidate_name (self w))));
       [|destruct (negb (truthy (job_position (self w))))]|];
    match goal with
    | |- context [get_next_question llm ?w'] => apply (get_next_question_sent w' Hr)
    | |- context [decide_and_continue llm ?w'] => apply (decide_and_continue_sent w' Hr)
    end.
Qed.

Lemma interview_loop_resume (stdin : list string) (w : World) (displayed : list string) :
  resume_entities (self w) = Some (resume_of sample_resume_info) ->
  Forall carries_sample (requests w) ->
  resume_entities (self (final (interview_loop llm stdin w displayed)))
    = Some (resume_of sample_resume_info)
  /\ Forall carries_sample (requests (final (interview_loop llm stdin w displayed))).
Proof.
  functional induction (interview_loop llm stdin w displayed);
    cbn [final]; intros Hr Hq;
    match goal with
    | Hg : get_next_question _ ?w0 = (?w', _) |- _ =>
        assert (H1 : resume_entities (self w') = Some (resume_of sample_resume_info)
                     /\ Forall carries_sample (requests w'))
          by (destruct (get_next_question_frame llm w0) as [_ Hf];
              destruct (get_next_question_sent w0 Hr) as [sent [R F]];
              rewrite Hg in Hf, R; cbn [fst] in Hf, R;
              split; [now rewrite Hf | rewrite R; apply Forall_app; now split])
    end;
    try exact H1; destruct H1 as [Hr1 Hq1].
  - apply IHc; [reflexivity | exact Hq1].
  - apply IHc; [reflexivity | exact Hq1].
  - match goal with
    | Hp : process_response _ ?r ?w' = (_, _) |- _ =>
        pose proof (process_response_resume llm r w') as Hf;
        destruct (process_response_sent r w' Hr1) as [sent [R F]];
        rewrite Hp in Hf, R; cbn [fst] in Hf, R
    end.
    split; [now rewrite Hf | rewrite R; apply Forall_app; now split].
  - apply IHc;
      match goal with
      | Hp : process_response _ ?r ?w' = (_, _) |- _ =>
          pose proof (process_response_resume llm r w') as Hf;
          destruct (process_response_sent r w' Hr1) as [sent [R F]];
          rewrite Hp in Hf, R; cbn [fst] in Hf, R
      end;
      [now rewrite Hf | rewrite R; apply Forall_app; now split].
Qed.

End Loop.

(** X20. The loop never displays the scripted welcome: each question shown
    is the name question, a position question, or text the service returned.
    The welcome is produced inside [process_response], whose return value
    the loop drops, and the next turn asks the service. *)
Theorem run_interview_displayed_questions (llm : Service) (stdin : list string) :
  Forall (scripted_or_generated llm) (shown (run_interview llm stdin)).
Proof.
  unfold run_interview. apply interview_loop_kinds; [|constructor].
  intros _. reflexivity.
Qed.

(** X21. Through every restart the interviewer of a run holds the sample
    resume: it holds it at the end, and every question request the run sent
    carries the rendering of the sample, never the placeholder. *)
Theorem run_interview_keeps_the_resume (llm : Service) (stdin : list string) :
  resume_entities (self (final (run_interview llm stdin)))
    = Some (resume_of sample_resume_info)
  /\ Forall carries_sample (requests (final (run_interview llm stdin))).
Proof.
  unfold run_interview. apply interview_loop_resume; [reflexivity | constructor].
Qed.

Section LoopTranscript.

Variable llm : Service.
Variable lines : list string.

Lemma recorded_more (displayed : list string) (q : string) (w : World) :
  recorded displayed lines w -> recorded (displayed ++ [q]) lines w.
Proof.
  intros [pairs [Hm Hf]]. exists pairs. split; [exact Hm|].
  apply Forall_impl with (2 := Hf). intros qa [H1 H2]. split; [|exact H2].
  apply in_or_app. now left.
Qed.

Lemma recorded_get_next_question (displayed : list string) (w : World) :
  recorded displayed lines w ->
  recorded displayed lines (fst (get_next_question llm w)).
Proof.
  intros [pairs [Hm Hf]]. exists pairs. split; [|exact Hf].
  now destruct (get_next_question_frame llm w) as [-> _].
Qed.

Lemma recorded_restart (displayed : list string) (w : World) :
  recorded displayed lines (restart w).
Proof. exists []. split; [reflexivity | constructor]. Qed.

(** One answered turn: the displayed question and the line read join the
    buffer, whether [process_response] returns or raises. *)
Lemma recorded_turn (displayed : list string) (w w1 : World) (q response : string) :
  get_next_question llm w = (w1, Ok q) ->
  In response lines ->
  is_command response = false ->
  recorded displayed lines w ->
  recorded (displayed ++ [q]) lines (fst (process_response llm response w1)).
Proof.
  intros Hg Hin Hcmd Hrec.
  pose proof (recorded_get_next_question displayed w Hrec) as H1.
  pose proof (get_next_question_returns llm w q) as Hl.
  rewrite Hg in H1, Hl. cbn [fst snd] in H1, Hl. specialize (Hl eq_refl).
  destruct (recorded_more displayed q w1 H1) as [pairs [Hm Hf]].
  exists (pairs ++ [(q, response)])%list. split.
  - rewrite process_response_memory, Hm, Hl, flat_map_app. cbn [flat_map].
    now rewrite app_nil_r.
  - apply Forall_app. split; [exact Hf|]. constructor; [|constructor].
    repeat split; cbn [fst snd]; try assumption.
    apply in_or_app. right. now left.
Qed.

Lemma interview_loop_recorded (stdin : list string) (w : World) (displayed : list string) :
  incl stdin lines ->
  recorded displayed lines w ->
  recorded (shown (interview_loop llm stdin w displayed)) lines
           (final (interview_loop llm stdin w displayed)).
Proof.
  functional induction (interview_loop llm stdin w displayed);
    cbn [shown final]; intros Hincl Hrec;
    match goal with
    | Hg : get_next_question _ ?w0 = (?w', _) |- _ =>
        pose proof (recorded_get_next_question displayed w0 Hrec) as H1;
        rewrite Hg in H1; cbn [fst] in H1
    end;
    try exact H1; try (now apply recorded_more).
  - apply IHc; [|apply recorded_restart].
    intros x Hx. apply Hincl. now right.
  - apply IHc; [|apply recorded_restart].
    intros x Hx. apply Hincl. now right; right.
  - match goal with
    | Hg : get_next_question _ ?w0 = (?w', Ok ?q),
      Hp : process_response _ ?r ?w' = (?w2, _) |- _ =>
        pose proof (recorded_turn displayed w0 w' q r Hg) as T; rewrite Hp in T
    end.
    apply T; [apply Hincl; now left | | exact Hrec].
    unfold is_command.
    repeat match goal with
           | H : (lower _ =? _)%string = false |- _ => rewrite H; clear H
           end.
    reflexivity.
  - apply IHc; [intros x Hx; apply Hincl; now right|].
    match goal with
    | Hg : get_next_question _ ?w0 = (?w', Ok ?q),
      Hp : process_response _ ?r ?w' = (?w2, _) |- _ =>
        pose proof (recorded_turn displayed w0 w' q r Hg) as T; rewrite Hp in T
    end.
    apply T; [apply Hincl; now left | | exact Hrec].
    unfold is_command.
    repeat match goal with
           | H : (lower _ =? _)%string = false |- _ => rewrite H; clear H
           end.
    reflexivity.
Qed.

End LoopTranscript.

(** X22. What a run records is what the operator saw and typed: at the end
    the buffer is a sequence of whole exchanges, and each one pairs a
    question that was displayed with a line that was read; command lines are
    never recorded, and neither is a question that was not displayed. *)
Theorem run_interview_transcript (llm : Service) (stdin : list string) :
  let c := run_interview llm stdin in
  memory (self (final c)) = flat_map exchange_msgs (transcript (memory (self (final c))))
  /\ Forall (exchange_of (shown c) stdin) (transcript (memory (self (final c)))).
Proof.
  cbv zeta. unfold run_interview.
  destruct (interview_loop_recorded llm stdin stdin
              (mkWorld (set_resume_entities (Some (resume_of sample_resume_info))
                                            new_session) [])
              [])
    as [pairs [Hm Hf]].
  - apply incl_refl.
  - exists []. split; [reflexivity | constructor].
  - rewrite Hm, transcript_exchanges. now split.
Qed.

Lemma summary_of_exchanges (s : AIInterviewer) (pairs : list (string * string)) :
  memory s = flat_map exchange_msgs pairs ->
  summary_lines s =
    flat_map (fun qa => [("AI Interviewer", fst qa); (fmt (candidate_name s), snd qa)])
             pairs.
Proof.
  unfold summary_lines. intros ->. generalize (fmt (candidate_name s)) as label.
  intros label. induction pairs as [|[q a] pairs IH]; [reflexivity|].
  cbn [flat_map exchange_msgs app map msg_type content fst snd]. now rewrite IH.
Qed.

(** X23. The summary at the end of a run lists the recorded exchanges in
    order, each question under the interviewer's label followed by its answer
    under the candidate's name (None while the name is unset): the label
    test of the summary agrees with the tags [process_response] records. *)
Theorem run_interview_summary (llm : Service) (stdin : list string) :
  let s := self (final (run_interview llm stdin)) in
  summary_lines s =
    flat_map (fun qa => [("AI Interviewer", fst qa); (fmt (candidate_name s), snd qa)])
             (transcript (memory s)).
Proof.
  cbv zeta. unfold run_interview.
  destruct (interview_loop_recorded llm stdin stdin
              (mkWorld (set_resume_entities (Some (resume_of sample_resume_info))
                                            new_session) [])
              [])
    as [pairs [Hm _]].
  - apply incl_refl.
  - exists []. split; [reflexivity | constructor].
  - rewrite (summary_of_exchanges _ pairs Hm), Hm, transcript_exchanges. reflexivity.
Qed.
